(** * ETL pipeline (app/etl.py) and read API (app/main.py): model and properties

    The Python sources are embedded shallowly: DataFrames are lists of rows,
    rows and parameter dictionaries are finite maps keyed by column name,
    Python exceptions are an explicit result type, and calls that leave the
    process (PostgreSQL, Neo4j) run in a state-and-exception monad over a
    world that records every call in a trace. Progress messages written with
    [print] are left out. *)

From Stdlib Require Import Ascii DecimalString.
From stdpp Require Import base numbers list gmap strings.

Local Open Scope Z_scope.

(** ** Exceptions and results *)

(** The exception classes the two modules raise or let through, each with
    the text [str(e)] gives. *)
Inductive Exn :=
| ValueError (msg : string)
| KeyError (key : string)
| AttributeError (msg : string)
| TypeError (msg : string)
| OperationalError (msg : string)   (* psycopg2.OperationalError *)
| ServiceError (msg : string)       (* any other error of a store or its driver *)
| PlainException (msg : string).    (* raise Exception("...") *)

(** [str(e)] *)
Definition exn_str (e : Exn) : string :=
  match e with
  | KeyError key => "'" +:+ key +:+ "'"
  | ValueError msg | AttributeError msg | TypeError msg
  | OperationalError msg | ServiceError msg | PlainException msg => msg
  end.

Inductive Res (A : Type) :=
| Ok (a : A)
| Raise (e : Exn).
Arguments Ok {A} a.
Arguments Raise {A} e.

#[global] Instance Exn_eq_dec : EqDecision Exn.
Proof. solve_decision. Defined.

(** Sequencing of computations that may raise: the first exception wins. *)
#[global] Instance Res_ret : MRet Res := fun A a => Ok a.
#[global] Instance Res_bind : MBind Res := fun A B f r =>
  match r with
  | Ok a => f a
  | Raise e => Raise e
  end.

(** ** Python built-ins used by [chunk] *)

Module Py.

(** Number of items of [range(start, stop, step)] for a non-zero step. *)
Definition range_length (start stop step : Z) : Z :=
  if 0 <? step
  then (if start <? stop then 1 + (stop - 1 - start) / step else 0)
  else (if stop <? start then 1 + (start - 1 - stop) / (- step) else 0).

(** [range(start, stop, step)]: a zero step raises [ValueError]. *)
Definition range (start stop step : Z) : Res (list Z) :=
  if step =? 0 then Raise (ValueError "range() arg 3 must not be zero")
  else Ok (map (fun k : nat => start + Z.of_nat k * step)
               (seq 0 (Z.to_nat (range_length start stop step)))).

(** Clamping of one slice bound against a sequence of [n] items: a negative
    bound counts from the end. *)
Definition slice_index (n i : Z) : Z :=
  if i <? 0 then Z.max 0 (i + n) else Z.min i n.

(** [data[i:j]] on a sequence (for a DataFrame: positional row slicing). *)
Definition slice {A} (data : list A) (i j : Z) : list A :=
  let n := Z.of_nat (length data) in
  let lo := slice_index n i in
  let hi := slice_index n j in
  take (Z.to_nat (hi - lo)) (drop (Z.to_nat lo) data).

End Py.

(** ** etl.py: [chunk] *)

(** [[data[i:i + size] for i in range(0, len(data), size)]] *)
Definition chunk {A} (data : list A) (size : Z) : Res (list (list A)) :=
  match Py.range 0 (Z.of_nat (length data)) size with
  | Raise e => Raise e
  | Ok idx => Ok (map (fun i => Py.slice data i (i + size)) idx)
  end.

(** The default of the [size] argument. *)
Definition default_chunk_size : Z := 500.

(** Ceiling of [n / s] for a positive [s]. *)
Definition ceil_div (n s : Z) : Z := (n + s - 1) / s.

(** ** Python string methods *)

Module Str.

Local Open Scope nat_scope.

(** Truth value of a string in a condition: non-empty. *)
Definition truthy (s : string) : bool :=
  match s with EmptyString => false | String _ _ => true end.

Definition is_lower (c : ascii) : bool :=
  let n := nat_of_ascii c in (97 <=? n) && (n <=? 122).

Definition upper_char (c : ascii) : ascii :=
  if is_lower c then ascii_of_nat (nat_of_ascii c - 32) else c.

(** [s.upper()], on ASCII text. *)
Fixpoint upper (s : string) : string :=
  match s with
  | EmptyString => EmptyString
  | String c r => String (upper_char c) (upper r)
  end.

(** [s.startswith(pre)] *)
Fixpoint startswith (s pre : string) : bool :=
  match pre, s with
  | EmptyString, _ => true
  | String _ _, EmptyString => false
  | String p pre', String c s' => if decide (c = p) then startswith s' pre' else false
  end.

(** [s.replace(old, new)]: every non-overlapping occurrence of [old], found
    left to right, becomes [new]. [skip] counts the characters of a matched
    occurrence that are still to be passed over. *)
Fixpoint replace_from (skip : nat) (old new s : string) : string :=
  match s with
  | EmptyString => if truthy old then EmptyString else new
  | String c r =>
      match skip with
      | S k => replace_from k old new r
      | O =>
          if startswith s old
          then new +:+ (if truthy old
                        then replace_from (String.length old - 1) old new r
                        else String c (replace_from 0 old new r))
          else String c (replace_from 0 old new r)
      end
  end.

Definition replace (s old new : string) : string := replace_from 0 old new s.

(** [s.split(sep)] for a one-character separator. *)
Fixpoint split (sep : ascii) (s : string) : list string :=
  match s with
  | EmptyString => [EmptyString]
  | String c r =>
      if decide (c = sep) then EmptyString :: split sep r
      else match split sep r with
           | [] => [String c EmptyString]
           | piece :: pieces => String c piece :: pieces
           end
  end.

(** [c.isspace()] on ASCII: tab, line feed, vertical tab, form feed,
    carriage return, the four separators 0x1c-0x1f, and space. *)
Definition is_space (c : ascii) : bool :=
  let n := nat_of_ascii c in
  ((9 <=? n) && (n <=? 13)) || ((28 <=? n) && (n <=? 31)) || (n =? 32).

Fixpoint lstrip (s : string) : string :=
  match s with
  | EmptyString => EmptyString
  | String c r => if is_space c then lstrip r else s
  end.

Fixpoint rstrip (s : string) : string :=
  match s with
  | EmptyString => EmptyString
  | String c r =>
      match rstrip r with
      | EmptyString => if is_space c then EmptyString else String c EmptyString
      | r' => String c r'
      end
  end.

(** [s.strip()] *)
Definition strip (s : string) : string := rstrip (lstrip s).

(** Characters of a string, for stating facts about them. *)
Fixpoint chars (s : string) : list ascii :=
  match s with
  | EmptyString => []
  | String c r => c :: chars r
  end.

Definition endswith (s suf : string) : bool :=
  bool_decide (drop (length (chars s) - length (chars suf)) (chars s) = chars suf).

(** The line feed character. *)
Definition LF : string := String (ascii_of_nat 10) EmptyString.

Fixpoint zeros (k : nat) : string :=
  match k with O => EmptyString | S k' => String "0" (zeros k') end.

(** ["%0<w>d" % n] for a natural number. *)
Definition zpad (w n : nat) : string :=
  let d := NilZero.string_of_uint (Nat.to_uint n) in
  zeros (w - String.length d) +:+ d.

End Str.

(** ** Timestamps and their ISO rendering *)

(** A [datetime]/pandas [Timestamp] as read from a [timestamp] or
    [timestamptz] column (microsecond resolution). [utcoffset] is the offset
    east of UTC in seconds; [None] is a timestamp without zone. *)
Record Timestamp := {
  year : nat; month : nat; day : nat;
  hour : nat; minute : nat; second : nat; microsecond : nat;
  utcoffset : option Z
}.

(** An ISO calendar date, as [str(date)] renders it. *)
Record Date := { d_year : nat; d_month : nat; d_day : nat }.

Definition date_isoformat (d : Date) : string :=
  Str.zpad 4 (d_year d) +:+ "-" +:+ Str.zpad 2 (d_month d) +:+ "-" +:+ Str.zpad 2 (d_day d).

(** The date and time part of [isoformat(sep)]:
    [YYYY-MM-DD<sep>HH:MM:SS[.ffffff]]. *)
Definition isoformat_local (sep : string) (t : Timestamp) : string :=
  Str.zpad 4 (year t) +:+ "-" +:+ Str.zpad 2 (month t) +:+ "-" +:+ Str.zpad 2 (day t)
  +:+ sep +:+ Str.zpad 2 (hour t) +:+ ":" +:+ Str.zpad 2 (minute t)
  +:+ ":" +:+ Str.zpad 2 (second t)
  +:+ (if (microsecond t =? 0)%nat then "" else "." +:+ Str.zpad 6 (microsecond t)).

(** The offset part: [+HH:MM] or [-HH:MM], with [:SS] when the offset is not
    a whole number of minutes. *)
Definition format_offset (off : Z) : string :=
  let a := Z.to_nat (Z.abs off) in
  let hh := (a / 3600)%nat in
  let mm := ((a mod 3600) / 60)%nat in
  let ss := (a mod 60)%nat in
  (if off <? 0 then "-" else "+")
  +:+ Str.zpad 2 hh +:+ ":" +:+ Str.zpad 2 mm
  +:+ (if (ss =? 0)%nat then "" else ":" +:+ Str.zpad 2 ss).

(** [ts.isoformat(sep)] *)
Definition isoformat_sep (sep : string) (t : Timestamp) : string :=
  isoformat_local sep t
  +:+ match utcoffset t with None => "" | Some off => format_offset off end.

(** [ts.isoformat()] *)
Definition isoformat (t : Timestamp) : string := isoformat_sep "T" t.

(** etl.py lines 279 and 311: [ts.isoformat().replace('+00:00', 'Z')] *)
Definition ts_iso (t : Timestamp) : string :=
  Str.replace (isoformat t) "+00:00" "Z".

(** ** etl.py: the statements of the bootstrap script (lines 106-111)

    [[stmt.strip() for stmt in content.split(';')
       if stmt.strip() and not stmt.strip().startswith('//')]] *)
Definition cypher_statements (content : string) : list string :=
  map Str.strip
      (List.filter
         (fun stmt => Str.truthy (Str.strip stmt)
                      && negb (Str.startswith (Str.strip stmt) "//"))
         (Str.split ";" content)).

(** ** etl.py: relationship kind of an event (lines 301-308) *)

(** [rel_type_map] *)
Definition rel_type_map : gmap string string :=
  {[ "VIEW" := "VIEWED"; "CLICK" := "CLICKED"; "ADD_TO_CART" := "ADDED_TO_CART" ]}.

(** [rel_type_map.get(event_type.upper(), 'INTERACTED_WITH')] *)
Definition rel_type (event_type : string) : string :=
  default "INTERACTED_WITH" (rel_type_map !! Str.upper event_type).

(** [rel_type_map.get(event_type, 'INTERACTED_WITH')] on the upper-cased text *)
Definition rel_type_lookup (event_type : string) : string :=
  default "INTERACTED_WITH" (rel_type_map !! event_type).

(** ** Values, rows and the graph store *)

(** What a cell of an extracted row, a query parameter or a stored property
    can hold. A float is carried by its [repr] and never inspected; [VNaT]
    is the missing timestamp of a pandas datetime column. *)
Inductive Value :=
| VNull
| VInt (z : Z)
| VFloat (repr : string)
| VStr (s : string)
| VDate (d : Date)
| VTime (t : Timestamp)
| VNaT.

#[global] Instance Date_eq_dec : EqDecision Date.
Proof. solve_decision. Defined.
#[global] Instance Timestamp_eq_dec : EqDecision Timestamp.
Proof. solve_decision. Defined.
#[global] Instance Value_eq_dec : EqDecision Value.
Proof. solve_decision. Defined.

(** One record of [DataFrame.to_dict('records')]: column name to cell. *)
Abbreviation Row := (gmap string Value).

(** [record[col]] *)
Definition get_item (record : Row) (col : string) : Res Value :=
  match record !! col with
  | Some v => Ok v
  | None => Raise (KeyError col)
  end.

(** Decimal text of an integer, as [str] prints it. *)
Definition int_str (z : Z) : string :=
  (if z <? 0 then "-" else "") +:+ Str.zpad 1 (Z.to_nat (Z.abs z)).

(** [str(v)] *)
Definition py_str (v : Value) : string :=
  match v with
  | VNull => "None"
  | VInt z => int_str z
  | VFloat r => r
  | VStr s => s
  | VDate d => date_isoformat d
  | VTime t => isoformat_sep " " t
  | VNaT => "NaT"
  end.

(** [type(v).__name__] *)
Definition type_name (v : Value) : string :=
  match v with
  | VNull => "NoneType"
  | VInt _ => "int"
  | VFloat _ => "float"
  | VStr _ => "str"
  | VDate _ => "datetime.date"
  | VTime _ => "Timestamp"
  | VNaT => "NaTType"
  end.

Definition no_attribute (v : Value) (name : string) : Exn :=
  AttributeError ("'" +:+ type_name v +:+ "' object has no attribute '" +:+ name +:+ "'").

(** [v.isoformat()]: dates and timestamps have the method. *)
Definition value_isoformat (v : Value) : Res string :=
  match v with
  | VTime t => Ok (isoformat t)
  | VDate d => Ok (date_isoformat d)
  | VNaT => Ok "NaT"
  | _ => Raise (no_attribute v "isoformat")
  end.

(** [v.upper()]: only text has the method. *)
Definition value_upper (v : Value) : Res string :=
  match v with
  | VStr s => Ok (Str.upper s)
  | _ => Raise (no_attribute v "upper")
  end.

(** A node carries one label and its stored properties; a relationship
    joins two nodes, named by their position in the node list. Positions are
    stable because the only deletion the pipeline performs removes
    everything. *)
Record Node := { n_label : string; n_props : gmap string Value }.
Record Rel := { r_src : nat; r_type : string; r_dst : nat; r_props : gmap string Value }.
Record Graph := { nodes : list Node; rels : list Rel }.

Definition empty_graph : Graph := {| nodes := []; rels := [] |}.

(** A parameter of a statement: a scalar or a list of flat records. *)
Inductive Param :=
| PVal (v : Value)
| PList (records : list Row).

Abbreviation Params := (gmap string Param).

(** The Cypher statements the two modules send. Each constructor stands for
    the statement text quoted with it. *)
Inductive Stmt :=
| Script (text : string)        (* one statement of queries.cypher *)
| Return1                       (* RETURN 1 *)
| Return1AsTest                 (* RETURN 1 AS test *)
| DetachDeleteAll               (* MATCH (n) DETACH DELETE n *)
| CreateCategories              (* category_query *)
| CreateProducts                (* product_query *)
| CreateCustomers               (* customer_query *)
| CreateOrders                  (* order_query *)
| CreateOrderItems              (* order_item_query *)
| CreateEvent (kind : string)   (* event_query, with rel_type spliced in *)
| CountNodes (label : string)   (* MATCH (x:label) RETURN count(x) AS count *)
| CountRels                     (* MATCH ()-[r]->() RETURN count(r) AS count *)
| ReadQuery (name : string).    (* a read query of main.py, by endpoint *)

#[global] Instance Stmt_eq_dec : EqDecision Stmt.
Proof. solve_decision. Defined.

Module Cypher.

Local Open Scope nat_scope.

(** [row.col]: a missing key reads as null. *)
Definition field (row : Row) (col : string) : Value :=
  default VNull (row !! col).

Definition is_null (v : Value) : bool :=
  match v with VNull => true | _ => false end.

(** A property map literal: a null value stores no property. *)
Definition props (kvs : list (string * Value)) : gmap string Value :=
  list_to_map (List.filter (fun kv => negb (is_null kv.2)) kvs).

(** Equality of an identity property with a sought value. Identity columns
    hold integers or text; null equals nothing. *)
Definition eqv (a b : Value) : bool :=
  match a, b with
  | VInt x, VInt y => bool_decide (x = y)
  | VStr x, VStr y => bool_decide (x = y)
  | _, _ => false
  end.

Definition node_matches (label : string) (id : Value) (n : Node) : bool :=
  bool_decide (n_label n = label) && eqv (field (n_props n) "id") id.

(** [MATCH (x:label {id: v})]: the positions of the matching nodes. *)
Definition match_nodes (g : Graph) (label : string) (id : Value) : list nat :=
  List.filter (fun i => from_option (node_matches label id) false (nodes g !! i))
              (seq 0 (length (nodes g))).

Definition add_nodes (g : Graph) (ns : list Node) : Graph :=
  {| nodes := nodes g ++ ns; rels := rels g |}.

Definition add_rels (g : Graph) (rs : list Rel) : Graph :=
  {| nodes := nodes g; rels := rels g ++ rs |}.

(** [$batch] *)
Definition batch_param (ps : Params) : Res (list Row) :=
  match ps !! "batch" with
  | Some (PList rs) => Ok rs
  | _ => Raise (ServiceError "Expected parameter(s): batch")
  end.

(** [$name] for a scalar parameter *)
Definition scalar_param (ps : Params) (name : string) : Res Value :=
  match ps !! name with
  | Some (PVal v) => Ok v
  | _ => Raise (ServiceError ("Expected parameter(s): " +:+ name))
  end.

(** [date(x)] and [datetime(x)] keep the ISO text they are given. *)
Definition temporal (v : Value) : Value := v.

Definition category_node (row : Row) : Node :=
  {| n_label := "Category";
     n_props := props [("id", field row "id"); ("name", field row "name")] |}.

Definition product_node (row : Row) : Node :=
  {| n_label := "Product";
     n_props := props [("id", field row "id"); ("name", field row "name");
                       ("price", field row "price")] |}.

Definition customer_node (row : Row) : Node :=
  {| n_label := "Customer";
     n_props := props [("id", field row "id"); ("name", field row "name");
                       ("join_date", temporal (field row "join_date"))] |}.

Definition order_node (row : Row) : Node :=
  {| n_label := "Order";
     n_props := props [("id", field row "id"); ("ts", temporal (field row "ts"))] |}.

(** [UNWIND $batch AS row CREATE (x:L {...}) WITH x, row
     MATCH (y:M {id: row.fk}) CREATE ...]: all nodes of the batch are created,
    then one relationship per row and matching [y]. [link x y] gives the
    direction. *)
Definition create_linked (g : Graph) (rows : list Row) (mk : Row → Node)
    (target fk : string) (link : nat → nat → Rel) : Graph :=
  let base := length (nodes g) in
  let g1 := add_nodes g (map mk rows) in
  add_rels g1
    (concat (imap (fun k row =>
                     map (link (base + k)) (match_nodes g1 target (field row fk)))
                  rows)).

(** [MATCH (o:Order {id: row.order_id}) MATCH (p:Product {id: row.product_id})
     CREATE (o)-[:CONTAINS {quantity: row.quantity}]->(p)] for one row. *)
Definition contains_rels (g : Graph) (row : Row) : list Rel :=
  o ← match_nodes g "Order" (field row "order_id");
  p ← match_nodes g "Product" (field row "product_id");
  [ {| r_src := o; r_type := "CONTAINS"; r_dst := p;
       r_props := props [("quantity", field row "quantity")] |} ].

(** [MATCH (c:Customer {id: $customer_id}) MATCH (p:Product {id: $product_id})
     CREATE (c)-[:kind {event_id: $event_id, ts: datetime($ts)}]->(p)] *)
Definition event_rels (g : Graph) (kind : string) (cid pid eid ts : Value) : list Rel :=
  c ← match_nodes g "Customer" cid;
  p ← match_nodes g "Product" pid;
  [ {| r_src := c; r_type := kind; r_dst := p;
       r_props := props [("event_id", eid); ("ts", temporal ts)] |} ].

(** The effect of a statement on the stored graph. [script] is the effect of
    a statement of the bootstrap file, which is not part of the sources. A
    statement the store refuses (unreachable server, violated constraint) is
    the environment's doing: see [w_fault] below. *)
Definition exec (script : string → Graph → Graph)
    (q : Stmt) (ps : Params) (g : Graph) : Res Graph :=
  match q with
  | Script text => Ok (script text g)
  | DetachDeleteAll => Ok empty_graph
  | CreateCategories =>
      rows ← batch_param ps; Ok (add_nodes g (map category_node rows))
  | CreateProducts =>
      rows ← batch_param ps;
      Ok (create_linked g rows product_node "Category" "category_id"
            (fun p c => {| r_src := p; r_type := "IN_CATEGORY"; r_dst := c; r_props := ∅ |}))
  | CreateCustomers =>
      rows ← batch_param ps; Ok (add_nodes g (map customer_node rows))
  | CreateOrders =>
      rows ← batch_param ps;
      Ok (create_linked g rows order_node "Customer" "customer_id"
            (fun o c => {| r_src := c; r_type := "PLACED"; r_dst := o; r_props := ∅ |}))
  | CreateOrderItems =>
      rows ← batch_param ps;
      Ok (add_rels g (concat (map (contains_rels g) rows)))
  | CreateEvent kind =>
      cid ← scalar_param ps "customer_id";
      pid ← scalar_param ps "product_id";
      eid ← scalar_param ps "event_id";
      ts ← scalar_param ps "ts";
      Ok (add_rels g (event_rels g kind cid pid eid ts))
  | Return1 | Return1AsTest | CountNodes _ | CountRels | ReadQuery _ => Ok g
  end.

Definition count_nodes (g : Graph) (label : string) : Z :=
  Z.of_nat (length (List.filter (fun n => bool_decide (n_label n = label)) (nodes g))).

Definition count_rels (g : Graph) : Z := Z.of_nat (length (rels g)).

Definition count_rels_of (g : Graph) (kind : string) : Z :=
  Z.of_nat (length (List.filter (fun r => bool_decide (r_type r = kind)) (rels g))).

(** The records a statement returns. [read] answers the read queries of
    main.py, whose traversals are not interpreted here. *)
Definition answer (read : string → Params → Graph → list Row)
    (q : Stmt) (ps : Params) (g : Graph) : list Row :=
  match q with
  | Return1 => [ {[ "1" := VInt 1 ]} ]
  | Return1AsTest => [ {[ "test" := VInt 1 ]} ]
  | CountNodes label => [ {[ "count" := VInt (count_nodes g label) ]} ]
  | CountRels => [ {[ "count" := VInt (count_rels g) ]} ]
  | ReadQuery name => read name ps g
  | _ => []
  end.

End Cypher.

(** ** The world outside the process *)

(** The calls that leave the process. A connection or driver is named by
    the position of the call that opened it in the trace. *)
Inductive Call :=
| PgConnect                                   (* psycopg2.connect(...) *)
| PgClose (conn : nat)                        (* conn.close() *)
| ReadSql (conn : nat) (table : string)       (* pd.read_sql("SELECT * FROM t", conn) *)
| DriverOpen                                  (* GraphDatabase.driver(...) *)
| DriverClose (driver : nat)                  (* driver.close() *)
| Run (driver : nat) (q : Stmt) (ps : Params) (* session.run(q, ps) in a session *)
| ReadFile                                    (* open(queries_path).read() *)
| Sleep (seconds : Z).                        (* time.sleep(delay) *)

Record Event := { ev_call : Call; ev_raised : option Exn }.

(** [w_fault k] is the exception, if any, that the environment answers to
    the call at position [k] of the trace; [w_script] and [w_read] are the
    store's behaviour on statements whose text is not interpreted here. *)
Record World := {
  w_trace : list Event;
  w_graph : Graph;
  w_tables : string → list Row;
  w_script_file : string;
  w_fault : nat → option Exn;
  w_script : string → Graph → Graph;
  w_read : string → Params → Graph → list Row
}.

Definition log (c : Call) (r : option Exn) (w : World) : World :=
  {| w_trace := w_trace w ++ [ {| ev_call := c; ev_raised := r |} ];
     w_graph := w_graph w; w_tables := w_tables w;
     w_script_file := w_script_file w; w_fault := w_fault w;
     w_script := w_script w; w_read := w_read w |}.

Definition set_graph (g : Graph) (w : World) : World :=
  {| w_trace := w_trace w; w_graph := g; w_tables := w_tables w;
     w_script_file := w_script_file w; w_fault := w_fault w;
     w_script := w_script w; w_read := w_read w |}.

(** A computation that talks to the world and may raise. *)
Definition M (A : Type) : Type := World → Res A * World.

#[global] Instance M_ret : MRet M := fun A a w => (Ok a, w).
#[global] Instance M_bind : MBind M := fun A B f m w =>
  match m w with
  | (Ok a, w') => f a w'
  | (Raise e, w') => (Raise e, w')
  end.

Definition lift {A} (r : Res A) : M A := fun w => (r, w).
Definition raise {A} (e : Exn) : M A := fun w => (Raise e, w).

(** [try: body except Exception as e: handler(e)] *)
Definition try_except {A} (body : M A) (handler : Exn → M A) : M A := fun w =>
  match body w with
  | (Ok a, w') => (Ok a, w')
  | (Raise e, w') => handler e w'
  end.

(** [try: body finally: cleanup] *)
Definition try_finally {A} (body : M A) (cleanup : M unit) : M A := fun w =>
  match body w with
  | (r, w') =>
      match cleanup w' with
      | (Ok _, w'') => (r, w'')
      | (Raise e, w'') => (Raise e, w'')
      end
  end.

(** [for x in xs: body(x)] *)
Fixpoint for_each {A} (xs : list A) (body : A → M unit) : M unit :=
  match xs with
  | [] => mret tt
  | x :: rest => body x ;; for_each rest body
  end.

(** A call the environment may answer with an exception. *)
Definition fallible {A} (c : Call) (result : World → A) : M A := fun w =>
  match w_fault w (length (w_trace w)) with
  | Some e => (Raise e, log c (Some e) w)
  | None => (Ok (result w), log c None w)
  end.

(** A call that does not raise. *)
Definition infallible (c : Call) : M unit := fun w => (Ok tt, log c None w).

Definition pg_connect : M nat := fallible PgConnect (fun w => length (w_trace w)).
Definition pg_close (conn : nat) : M unit := infallible (PgClose conn).
Definition read_sql (table : string) (conn : nat) : M (list Row) :=
  fallible (ReadSql conn table) (fun w => w_tables w table).
Definition driver_open : M nat := fallible DriverOpen (fun w => length (w_trace w)).
Definition driver_close (driver : nat) : M unit := infallible (DriverClose driver).
Definition read_file : M string := fallible ReadFile w_script_file.
Definition sleep (seconds : Z) : M unit := infallible (Sleep seconds).

(** [with driver.session() as session: session.run(q, ps)]: the statement
    raises when the environment says so or when the statement itself fails;
    otherwise it updates the graph and returns its records. *)
Definition session_run (driver : nat) (q : Stmt) (ps : Params) : M (list Row) := fun w =>
  match w_fault w (length (w_trace w)) with
  | Some e => (Raise e, log (Run driver q ps) (Some e) w)
  | None =>
      match Cypher.exec (w_script w) q ps (w_graph w) with
      | Raise e => (Raise e, log (Run driver q ps) (Some e) w)
      | Ok g' =>
          (Ok (Cypher.answer (w_read w) q ps (w_graph w)),
           set_graph g' (log (Run driver q ps) None w))
      end
  end.

(** [result.single()]: the one record of a result. The statements it is
    used on return exactly one. *)
Definition single (records : list Row) : Res Row :=
  match records with
  | [r] => Ok r
  | _ => Raise (ServiceError "Expected exactly one record")
  end.

(** ** etl.py *)

(** One pass of the loop of [wait_for_postgres]; [true] stands for the
    [return] inside the loop. *)
Definition wait_for_postgres_attempt (max_retries delay i : Z) : M bool :=
  try_except
    (conn ← pg_connect; pg_close conn ;; mret true)
    (fun e =>
       match e with
       | OperationalError _ =>
           if i <? max_retries - 1 then sleep delay ;; mret false
           else raise (PlainException "PostgreSQL failed to become ready")
       | _ => raise e
       end).

Fixpoint wait_for_postgres_loop (max_retries delay : Z) (attempts : list Z) : M unit :=
  match attempts with
  | [] => mret tt
  | i :: rest =>
      returned ← wait_for_postgres_attempt max_retries delay i;
      if returned : bool then mret tt else wait_for_postgres_loop max_retries delay rest
  end.

Definition wait_for_postgres (max_retries delay : Z) : M unit :=
  attempts ← lift (Py.range 0 max_retries 1);
  wait_for_postgres_loop max_retries delay attempts.

Definition wait_for_neo4j_attempt (max_retries delay i : Z) : M bool :=
  try_except
    (driver ← driver_open;
     session_run driver Return1 ∅ ;;
     driver_close driver ;;
     mret true)
    (fun e =>
       if i <? max_retries - 1 then sleep delay ;; mret false
       else raise (PlainException ("Neo4j failed to become ready: " +:+ exn_str e))).

Fixpoint wait_for_neo4j_loop (max_retries delay : Z) (attempts : list Z) : M unit :=
  match attempts with
  | [] => mret tt
  | i :: rest =>
      returned ← wait_for_neo4j_attempt max_retries delay i;
      if returned : bool then mret tt else wait_for_neo4j_loop max_retries delay rest
  end.

Definition wait_for_neo4j (max_retries delay : Z) : M unit :=
  attempts ← lift (Py.range 0 max_retries 1);
  wait_for_neo4j_loop max_retries delay attempts.

(** [run_cypher(driver, query, parameters)] *)
Definition run_cypher (driver : nat) (query : Stmt) (parameters : Params) : M unit :=
  session_run driver query parameters ;; mret tt.

(** [run_cypher_file(driver, file_path)] *)
Definition run_cypher_file (driver : nat) : M unit :=
  content ← read_file;
  for_each (cypher_statements content)
    (fun statement =>
       if Str.truthy statement then run_cypher driver (Script statement) ∅
       else mret tt).

(** Line 258: [record['join_date'] = str(record['join_date'])] *)
Definition customer_record (record : Row) : Res Row :=
  v ← get_item record "join_date";
  Ok (<["join_date" := VStr (py_str v)]> record).

(** Lines 279 and 311: [record['ts'].isoformat().replace('+00:00', 'Z')] *)
Definition record_ts_iso (record : Row) : Res string :=
  v ← get_item record "ts";
  iso ← value_isoformat v;
  Ok (Str.replace iso "+00:00" "Z").

(** Line 279: [record['ts'] = ...] *)
Definition order_record (record : Row) : Res Row :=
  ts ← record_ts_iso record;
  Ok (<["ts" := VStr ts]> record).

(** Lines 300-326: the body of the loop over the records of events. *)
Definition load_event (driver : nat) (record : Row) : M unit :=
  event_type ← lift (get_item record "event_type" ≫= value_upper);
  let rel_type := rel_type_lookup event_type in
  ts_iso ← lift (record_ts_iso record);
  customer_id ← lift (get_item record "customer_id");
  product_id ← lift (get_item record "product_id");
  event_id ← lift (get_item record "id");
  run_cypher driver (CreateEvent rel_type)
    {[ "customer_id" := PVal customer_id; "product_id" := PVal product_id;
       "event_id" := PVal event_id; "ts" := PVal (VStr ts_iso) ]}.

(** [for batch in chunk(df): records = prepare(batch); run_cypher(query, {"batch": records})] *)
Definition load_batches (driver : nat) (query : Stmt) (prepare : Row → Res Row)
    (df : list Row) : M unit :=
  batches ← lift (chunk df default_chunk_size);
  for_each batches
    (fun batch =>
       records ← lift (mapM prepare batch);
       run_cypher driver query {[ "batch" := PList records ]}).

(** [session.run(q).single()['count']] *)
Definition count_query (driver : nat) (q : Stmt) : M Value :=
  result ← session_run driver q ∅;
  lift (single result ≫= fun r => get_item r "count").

(** The body of the [try] of [etl] (lines 177-347). *)
Definition etl_body (pg_conn driver : nat) : M unit :=
  run_cypher_file driver ;;
  run_cypher driver DetachDeleteAll ∅ ;;
  df_categories ← read_sql "categories" pg_conn;
  df_products ← read_sql "products" pg_conn;
  df_customers ← read_sql "customers" pg_conn;
  df_orders ← read_sql "orders" pg_conn;
  df_order_items ← read_sql "order_items" pg_conn;
  df_events ← read_sql "events" pg_conn;
  load_batches driver CreateCategories Ok df_categories ;;
  load_batches driver CreateProducts Ok df_products ;;
  load_batches driver CreateCustomers customer_record df_customers ;;
  load_batches driver CreateOrders order_record df_orders ;;
  load_batches driver CreateOrderItems Ok df_order_items ;;
  (batches ← lift (chunk df_events default_chunk_size);
   for_each batches (fun batch => for_each batch (load_event driver))) ;;
  count_query driver (CountNodes "Customer") ;;
  count_query driver (CountNodes "Product") ;;
  count_query driver (CountNodes "Order") ;;
  count_query driver (CountNodes "Category") ;;
  count_query driver CountRels ;;
  mret tt.

(** [etl()] *)
Definition etl : M unit :=
  wait_for_postgres 30 2 ;;
  wait_for_neo4j 30 2 ;;
  pg_conn ← pg_connect;
  driver ← driver_open;
  try_finally (etl_body pg_conn driver)
              (pg_close pg_conn ;; driver_close driver).

(** ** main.py *)

(** The JSON bodies the endpoints build. [JFloat v] is [float(v)] of a
    numeric value, left symbolic. *)
#[local] Unset Elimination Schemes.
Inductive Json :=
| JBool (b : bool)
| JStr (s : string)
| JVal (v : Value)
| JFloat (v : Value)
| JList (items : list Json)
| JObj (fields : list (string * Json)).
#[local] Set Elimination Schemes.

(** What the client receives: the returned body, or the error response of a
    raised [HTTPException]. *)
Inductive Response :=
| Returned (body : Json)
| HTTPException (status_code : Z) (detail : string).

(** [float(v)]: numbers convert, text that is not a number and every other
    value raise (prices are not stored as text). *)
Definition py_float (v : Value) : Res Json :=
  match v with
  | VInt _ | VFloat _ => Ok (JFloat v)
  | VStr s => Raise (ValueError ("could not convert string to float: '" +:+ s +:+ "'"))
  | _ => Raise (TypeError ("float() argument must be a string or a real number, not '"
                           +:+ type_name v +:+ "'"))
  end.

(** [a + b] on the counts of [graph_stats] *)
Definition py_add (a b : Value) : Res Value :=
  match a, b with
  | VInt x, VInt y => Ok (VInt (x + y))
  | _, _ => Raise (TypeError ("unsupported operand type(s) for +: '" +:+ type_name a
                              +:+ "' and '" +:+ type_name b +:+ "'"))
  end.

(** [except Exception as e: raise HTTPException(status_code=500, detail=...)] *)
Definition database_error (e : Exn) : M Response :=
  mret (HTTPException 500 ("Database error: " +:+ exn_str e)).

(** [{"k": record["k"], ...}] for the listed keys *)
Definition pick (record : Row) (key : string) : Res (string * Json) :=
  v ← get_item record key; Ok (key, JVal v).

(** [{"price": float(record["price"])}] *)
Definition pick_price (record : Row) : Res (string * Json) :=
  v ← get_item record "price"; f ← py_float v; Ok ("price", f).

(** [GET /health] *)
Definition health_check : M Response :=
  try_except
    (driver ← driver_open;
     result ← session_run driver Return1AsTest ∅;
     _ ← lift (single result);
     driver_close driver ;;
     mret (Returned (JObj [("ok", JBool true)])))
    (fun e => mret (Returned (JObj [("ok", JBool false); ("error", JStr (exn_str e))]))).

(** [GET /stats] *)
Definition graph_stats : M Response :=
  try_except
    (driver ← driver_open;
     customers ← count_query driver (CountNodes "Customer");
     products ← count_query driver (CountNodes "Product");
     orders ← count_query driver (CountNodes "Order");
     categories ← count_query driver (CountNodes "Category");
     total_rels ← count_query driver CountRels;
     driver_close driver ;;
     total ← lift (cp ← py_add customers products; cpo ← py_add cp orders;
                   py_add cpo categories);
     mret (Returned (JObj
       [("nodes", JObj [("customers", JVal customers); ("products", JVal products);
                        ("orders", JVal orders); ("categories", JVal categories);
                        ("total", JVal total)]);
        ("relationships", JObj [("total", JVal total_rels)])])))
    database_error.

(** The shape shared by the list endpoints: run one read query, turn every
    record into an object, close the driver, wrap the list. The bounds on
    [limit] are checked by the framework before the handler is called. *)
Definition read_endpoint (name : string) (ps : Params)
    (item : Row → Res Json) (wrap : list Json → Json) : M Response :=
  try_except
    (driver ← driver_open;
     result ← session_run driver (ReadQuery name) ps;
     items ← lift (mapM item result);
     driver_close driver ;;
     mret (Returned (wrap items)))
    database_error.

(** [GET /recs/collaborative/{customer_id}] *)
Definition collaborative_recommendations (customer_id : string) (limit : Z) : M Response :=
  read_endpoint "collaborative"
    {[ "customer_id" := PVal (VStr customer_id); "limit" := PVal (VInt limit) ]}
    (fun record =>
       a ← pick record "product_id"; b ← pick record "product_name";
       c ← pick_price record; d ← pick record "score";
       Ok (JObj [a; b; c; d]))
    (fun recommendations =>
       JObj [("customer_id", JStr customer_id);
             ("strategy", JStr "collaborative_filtering");
             ("recommendations", JList recommendations)]).

(** [GET /recs/similar/{product_id}] *)
Definition similar_product_recommendations (product_id : string) (limit : Z) : M Response :=
  read_endpoint "similar"
    {[ "product_id" := PVal (VStr product_id); "limit" := PVal (VInt limit) ]}
    (fun record =>
       a ← pick record "product_id"; b ← pick record "product_name";
       c ← pick_price record; d ← pick record "category"; e ← pick record "score";
       Ok (JObj [a; b; c; d; e]))
    (fun recommendations =>
       JObj [("product_id", JStr product_id);
             ("strategy", JStr "product_similarity");
             ("recommendations", JList recommendations)]).

(** [GET /recs/category/{category_id}] *)
Definition category_recommendations (category_id : string) (limit : Z) : M Response :=
  read_endpoint "category"
    {[ "category_id" := PVal (VStr category_id); "limit" := PVal (VInt limit) ]}
    (fun record =>
       a ← pick record "product_id"; b ← pick record "product_name";
       c ← pick_price record; d ← pick record "score";
       Ok (JObj [a; b; c; d]))
    (fun recommendations =>
       JObj [("category_id", JStr category_id);
             ("strategy", JStr "category_popularity");
             ("recommendations", JList recommendations)]).

(** [GET /recs/trending] *)
Definition trending_recommendations (limit : Z) : M Response :=
  read_endpoint "trending" {[ "limit" := PVal (VInt limit) ]}
    (fun record =>
       a ← pick record "product_id"; b ← pick record "product_name";
       c ← pick_price record; d ← pick record "category"; e ← pick record "score";
       Ok (JObj [a; b; c; d; e]))
    (fun recommendations =>
       JObj [("strategy", JStr "trending"); ("recommendations", JList recommendations)]).

(** [GET /customers] *)
Definition list_customers : M Response :=
  read_endpoint "customers" ∅
    (fun record =>
       a ← pick record "customer_id"; b ← pick record "name";
       jd ← get_item record "join_date"; d ← pick record "order_count";
       Ok (JObj [a; b; ("join_date", JStr (py_str jd)); d]))
    (fun customers => JObj [("customers", JList customers)]).

(** [GET /products] *)
Definition list_products : M Response :=
  read_endpoint "products" ∅
    (fun record =>
       a ← pick record "product_id"; b ← pick record "name";
       c ← pick_price record; d ← pick record "category"; e ← pick record "order_count";
       Ok (JObj [a; b; c; d; e]))
    (fun products => JObj [("products", JList products)]).

(** The read endpoints other than [/health], each at given arguments. *)
Definition other_read_endpoints (id : string) (limit : Z) : list (M Response) :=
  [ graph_stats;
    collaborative_recommendations id limit;
    similar_product_recommendations id limit;
    category_recommendations id limit;
    trending_recommendations limit;
    list_customers;
    list_products ].

(** ** Vocabulary for statements about runs *)

(** The trace entry of a call that returned. *)
Definition ok_event (c : Call) : Event := {| ev_call := c; ev_raised := None |}.

(** Everything of the world that no call changes. *)
Definition same_env (w w' : World) : Prop :=
  w_tables w' = w_tables w ∧ w_script_file w' = w_script_file w
  ∧ w_fault w' = w_fault w ∧ w_script w' = w_script w ∧ w_read w' = w_read w.

(** [w'] is [w] after the events [evs], holding graph [g]. *)
Definition after (w : World) (evs : list Event) (g : Graph) (w' : World) : Prop :=
  w_trace w' = w_trace w ++ evs ∧ w_graph w' = g ∧ same_env w w'.

(** Number of [session.run] calls in a trace whose statement satisfies [P]. *)
Definition runs_of (P : Stmt → bool) (evs : list Event) : nat :=
  length (List.filter
            (fun ev => match ev_call ev with Run _ q _ => P q | _ => false end) evs).

Definition is_stmt (q : Stmt) (q' : Stmt) : bool := bool_decide (q' = q).

Definition is_create_event (q : Stmt) : bool :=
  match q with CreateEvent _ => true | _ => false end.

(** Threading a graph through a list of steps that may raise. *)
Fixpoint fold_res {B} (step : B → Graph → Res Graph) (ys : list B) (g : Graph) : Res Graph :=
  match ys with
  | [] => Ok g
  | y :: rest => g' ← step y g; fold_res step rest g'
  end.

(** The graph after a sequence of statements. *)
Definition exec_stmts (script : string → Graph → Graph) (qs : list (Stmt * Params))
    (g : Graph) : Res Graph :=
  fold_res (fun qp => Cypher.exec script qp.1 qp.2) qs g.

(** The trace of a sequence of statements that all returned. *)
Definition run_events (driver : nat) (qs : list (Stmt * Params)) : list Event :=
  map (fun qp => ok_event (Run driver qp.1 qp.2)) qs.

(** One [$batch] statement per group of records. *)
Definition batch_stmts (q : Stmt) (batches : list (list Row)) : list (Stmt * Params) :=
  map (fun records => (q, {[ "batch" := PList records ]})) batches.

(** The statements [run_cypher_file] sends for the statements of a script. *)
Definition script_stmts (statements : list string) : list (Stmt * Params) :=
  map (fun statement => (Script statement, ∅)) (List.filter Str.truthy statements).

(** The five verification queries, in order. *)
Definition count_stmts : list (Stmt * Params) :=
  [ (CountNodes "Customer", ∅); (CountNodes "Product", ∅); (CountNodes "Order", ∅);
    (CountNodes "Category", ∅); (CountRels, ∅) ].

(** The six extractions, in order. *)
Definition table_names : list string :=
  [ "categories"; "products"; "customers"; "orders"; "order_items"; "events" ].

(** The statement and parameters [load_event] sends for a record, when the
    record has what the loop body reads. *)
Definition event_stmt (record : Row) : Res (Stmt * Params) :=
  event_type ← get_item record "event_type" ≫= value_upper;
  ts_iso ← record_ts_iso record;
  customer_id ← get_item record "customer_id";
  product_id ← get_item record "product_id";
  event_id ← get_item record "id";
  Ok (CreateEvent (rel_type_lookup event_type),
      {[ "customer_id" := PVal customer_id; "product_id" := PVal product_id;
         "event_id" := PVal event_id; "ts" := PVal (VStr ts_iso) ]}).

(** The groups of prepared records of one batched entity type. *)
Definition prepared_batches (prepare : Row → Res Row) (df : list Row) : Res (list (list Row)) :=
  chunk df default_chunk_size ≫= mapM (mapM prepare).

(** All load statements of a run over the given tables, in the order the
    pipeline sends them. *)
Definition load_stmts (tables : string → list Row) : Res (list (Stmt * Params)) :=
  cats ← prepared_batches Ok (tables "categories");
  prods ← prepared_batches Ok (tables "products");
  custs ← prepared_batches customer_record (tables "customers");
  ords ← prepared_batches order_record (tables "orders");
  items ← prepared_batches Ok (tables "order_items");
  events ← mapM event_stmt (tables "events");
  Ok (batch_stmts CreateCategories cats ++ batch_stmts CreateProducts prods
      ++ batch_stmts CreateCustomers custs ++ batch_stmts CreateOrders ords
      ++ batch_stmts CreateOrderItems items ++ events).

(** The graph a run loads from the six tables, starting from nothing. *)
Definition loaded_graph (script : string → Graph → Graph) (tables : string → list Row)
    : Res Graph :=
  stmts ← load_stmts tables; exec_stmts script stmts empty_graph.

(** A stretch of trace that sends nothing but readiness probes. *)
Definition probes_only (evs : list Event) : Prop :=
  Forall (fun ev => match ev_call ev with
                    | Run _ q _ => q = Return1
                    | ReadSql _ _ | ReadFile => False
                    | _ => True
                    end) evs.

(** A computation that, whatever its outcome, leaves the graph alone and
    sends nothing but probes. *)
Definition quiet {A} (m : M A) : Prop :=
  ∀ w r w', m w = (r, w') → ∃ evs, after w evs (w_graph w) w' ∧ probes_only evs.

(** The trace of a run of [etl] that returns, after the readiness probes:
    [pg] and [drv] name the two connections, [file] is the bootstrap script,
    [stmts] the load statements. *)
Definition etl_events (pg drv : nat) (file : string) (stmts : list (Stmt * Params))
    : list Event :=
  [ ok_event PgConnect; ok_event DriverOpen; ok_event ReadFile ]
  ++ run_events drv (script_stmts (cypher_statements file))
  ++ [ ok_event (Run drv DetachDeleteAll ∅) ]
  ++ map (fun table => ok_event (ReadSql pg table)) table_names
  ++ run_events drv stmts
  ++ run_events drv count_stmts
  ++ [ ok_event (PgClose pg); ok_event (DriverClose drv) ].

(** The graph store cannot be reached from world [w], with exception [e]:
    the next call, or the one after it when the next returns, raises [e]. An
    endpoint's first two calls are the construction of the driver and its
    first statement. *)
Definition store_down (w : World) (e : Exn) : Prop :=
  w_fault w (length (w_trace w)) = Some e
  ∨ (w_fault w (length (w_trace w)) = None
     ∧ w_fault w (S (length (w_trace w))) = Some e).

(** The timestamp with the same date and time fields and another offset. *)
Definition with_offset (off : option Z) (t : Timestamp) : Timestamp :=
  {| year := year t; month := month t; day := day t;
     hour := hour t; minute := minute t; second := second t;
     microsecond := microsecond t; utcoffset := off |}.

(** Text without a plus sign. *)
Definition plus_free (s : string) : Prop :=
  Forall (fun c => c ≠ "+"%char) (Str.chars s).

(** ** A small shop, for running the definitions *)

Module Sample.

Definition noon_utc : Timestamp :=
  {| year := 2024; month := 1; day := 15; hour := 12; minute := 0; second := 0;
     microsecond := 0; utcoffset := Some 0 |}.

(** The same wall-clock reading without zone, and two hours east of UTC. *)
Definition noon_naive : Timestamp := with_offset None noon_utc.
Definition noon_plus2 : Timestamp := with_offset (Some 7200) noon_utc.

Definition category (id : Z) (name : string) : Row :=
  {[ "id" := VInt id; "name" := VStr name ]}.
Definition product (id : Z) (name : string) (category_id : Z) : Row :=
  {[ "id" := VInt id; "name" := VStr name; "price" := VFloat "9.99";
     "category_id" := VInt category_id ]}.
Definition customer (id : Z) (name : string) : Row :=
  {[ "id" := VInt id; "name" := VStr name;
     "join_date" := VDate {| d_year := 2023; d_month := 5; d_day := 7 |} ]}.
Definition order (id customer_id : Z) : Row :=
  {[ "id" := VInt id; "customer_id" := VInt customer_id; "ts" := VTime noon_utc ]}.
Definition order_item (order_id product_id quantity : Z) : Row :=
  {[ "order_id" := VInt order_id; "product_id" := VInt product_id;
     "quantity" := VInt quantity ]}.
Definition event (id customer_id product_id : Z) (event_type : string) : Row :=
  {[ "id" := VInt id; "customer_id" := VInt customer_id; "product_id" := VInt product_id;
     "event_type" := VStr event_type; "ts" := VTime noon_utc ]}.

(** Two categories, three products, two customers, two orders of one
    product each, one order item whose order does not exist, one view. *)
Definition tables (table : string) : list Row :=
  if decide (table = "categories") then [category 1 "A"; category 2 "B"]
  else if decide (table = "products") then [product 1 "p1" 1; product 2 "p2" 1; product 3 "p3" 2]
  else if decide (table = "customers") then [customer 1 "c1"; customer 2 "c2"]
  else if decide (table = "orders") then [order 1 1; order 2 2]
  else if decide (table = "order_items")
       then [order_item 1 1 1; order_item 2 3 2; order_item 7 1 1]
  else if decide (table = "events") then [event 1 1 2 "view"]
  else [].

(** A world where every call is answered, holding a graph left by
    something else. *)
Definition world : World :=
  {| w_trace := [];
     w_graph := {| nodes := [ {| n_label := "Stale"; n_props := ∅ |} ]; rels := [] |};
     w_tables := tables;
     w_script_file := "CREATE INDEX product_name IF NOT EXISTS FOR (p:Product) ON (p.name);";
     w_fault := fun _ => None;
     w_script := fun _ g => g;
     w_read := fun _ _ _ => [] |}.

(** The same world, except that the call at position [k] raises [e]. *)
Definition world_failing_at (k : nat) (e : Exn) : World :=
  {| w_trace := []; w_graph := w_graph world; w_tables := tables;
     w_script_file := w_script_file world;
     w_fault := fun i => if decide (i = k) then Some e else None;
     w_script := fun _ g => g;
     w_read := fun _ _ _ => [] |}.

(** The same world with another bootstrap script. *)
Definition world_with_script (content : string) : World :=
  {| w_trace := []; w_graph := w_graph world; w_tables := tables;
     w_script_file := content; w_fault := fun _ => None;
     w_script := fun _ g => g; w_read := fun _ _ _ => [] |}.

End Sample.

(** ** Vocabulary for the further properties *)

(** Number of calls in a trace that satisfy [P]. *)
Definition calls_of (P : Call → bool) (evs : list Event) : nat :=
  length (List.filter (fun ev => P (ev_call ev)) evs).

Definition is_pg_connect (c : Call) : bool :=
  match c with PgConnect => true | _ => false end.

Definition is_sleep (c : Call) : bool :=
  match c with Sleep _ => true | _ => false end.

(** The calls of a trace, without their outcomes. *)
Definition calls (evs : list Event) : list Call := map ev_call evs.

(** The calls a computation has added to the trace of [w] when it ends in [w']. *)
Definition new_calls (w w' : World) : list Call :=
  calls (drop (length (w_trace w)) (w_trace w')).

(** The calls of the PostgreSQL readiness loop. *)
Definition pg_probe_call (delay : Z) (c : Call) : Prop :=
  c = PgConnect ∨ (∃ conn, c = PgClose conn) ∨ c = Sleep delay.

(** Whatever the outcome of [m], each of its calls satisfies [P], the graph
    it leaves is related by [G] to the graph it found, and the rest of the
    world is as before. *)
Definition steps (P : Call → Prop) (G : Graph → Graph → Prop) {A} (m : M A) : Prop :=
  ∀ w r w', m w = (r, w') →
    ∃ evs, w_trace w' = w_trace w ++ evs
      ∧ Forall (fun ev => P (ev_call ev)) evs
      ∧ G (w_graph w) (w_graph w')
      ∧ same_env w w'.

(** The statements an endpoint of main.py may send: probes, counts and read
    queries. *)
Definition is_read_stmt (q : Stmt) : bool :=
  match q with
  | Return1 | Return1AsTest | CountNodes _ | CountRels | ReadQuery _ => true
  | _ => false
  end.

(** The calls of an endpoint: building or closing a driver, running a read
    statement. *)
Definition api_call (c : Call) : Prop :=
  match c with
  | DriverOpen | DriverClose _ => True
  | Run _ q _ => is_read_stmt q = true
  | _ => False
  end.

(** All endpoints that talk to the graph store, each at given arguments. *)
Definition store_endpoints (id : string) (limit : Z) : list (M Response) :=
  health_check :: other_read_endpoints id limit.

(** What a count statement counts. *)
Definition count_of (g : Graph) (q : Stmt) : Z :=
  match q with
  | CountNodes label => Cypher.count_nodes g label
  | CountRels => Cypher.count_rels g
  | _ => 0
  end.

Definition is_count_stmt (q : Stmt) : bool :=
  match q with CountNodes _ | CountRels => true | _ => false end.

(** The next [n] calls from world [w] are answered. *)
Definition answered (w : World) (n : nat) : Prop :=
  ∀ j, (j < n)%nat → w_fault w (length (w_trace w) + j) = None.




(** A call other than an extraction. *)
Definition not_read_sql (c : Call) : Prop :=
  match c with ReadSql _ _ => False | _ => True end.

(** The trace entry of an extraction that raised. *)
Definition read_failed (conn : nat) (table : string) (e : Exn) : Event :=
  {| ev_call := ReadSql conn table; ev_raised := Some e |}.

(** A stretch of trace in which every extraction returned. *)
Definition no_failed_read (evs : list Event) : Prop :=
  Forall (fun ev => match ev_call ev with
                    | ReadSql _ _ => ev_raised ev = None
                    | _ => True
                    end) evs.

(** No constraint between two graphs. *)
Definition any_graph (g g' : Graph) : Prop := True.

(** The shapes of relationship the load statements of etl.py create: label
    of the start node, type, label of the end node (lines 228-321). *)
Definition schema : list (string * string * string) :=
  [ ("Product", "IN_CATEGORY", "Category");
    ("Customer", "PLACED", "Order");
    ("Order", "CONTAINS", "Product");
    ("Customer", "VIEWED", "Product");
    ("Customer", "CLICKED", "Product");
    ("Customer", "ADDED_TO_CART", "Product");
    ("Customer", "INTERACTED_WITH", "Product") ].

(** A relationship whose two ends are nodes of the graph, of the labels its
    type asks for. *)
Definition rel_typed (g : Graph) (r : Rel) : Prop :=
  ∃ src dst, nodes g !! r_src r = Some src ∧ nodes g !! r_dst r = Some dst
             ∧ (n_label src, r_type r, n_label dst) ∈ schema.

Definition well_typed (g : Graph) : Prop := Forall (rel_typed g) (rels g).

(** A load statement of [etl], with an event kind of the mapping. *)
Definition is_load_stmt (q : Stmt) : Prop :=
  match q with
  | CreateCategories | CreateProducts | CreateCustomers | CreateOrders
  | CreateOrderItems => True
  | CreateEvent kind => kind ∈ ["VIEWED"; "CLICKED"; "ADDED_TO_CART"; "INTERACTED_WITH"]
  | _ => False
  end.

(** The nodes a statement creates. *)
Definition new_nodes (q : Stmt) (ps : Params) : list Node :=
  match q, ps !! "batch" with
  | CreateCategories, Some (PList rows) => map Cypher.category_node rows
  | CreateProducts, Some (PList rows) => map Cypher.product_node rows
  | CreateCustomers, Some (PList rows) => map Cypher.customer_node rows
  | CreateOrders, Some (PList rows) => map Cypher.order_node rows
  | _, _ => []
  end.

(** ** Worlds in which the stores misbehave *)

Module Scenario.

(** Every call is answered by the exception [e]. *)
Definition refusing (e : Exn) : World :=
  {| w_trace := []; w_graph := w_graph Sample.world; w_tables := Sample.tables;
     w_script_file := w_script_file Sample.world;
     w_fault := fun _ => Some e;
     w_script := fun _ g => g; w_read := fun _ _ _ => [] |}.



End Scenario.

(** * Properties *)

Section chunk_facts.
Context {A : Type}.
Implicit Types (data : list A).

Lemma ceil_div_spec (n s : Z) :
  0 <= n → 0 < s → (ceil_div n s - 1) * s < n <= ceil_div n s * s.
Proof.
  intros Hn Hs. unfold ceil_div.
  pose proof (Z.div_mod (n + s - 1) s ltac:(lia)) as Hdm.
  pose proof (Z.mod_pos_bound (n + s - 1) s Hs) as Hb. nia.
Qed.

Lemma range_length_pos (n s : Z) :
  0 <= n → 0 < s → Py.range_length 0 n s = ceil_div n s.
Proof.
  intros Hn Hs. unfold Py.range_length, ceil_div.
  destruct (Z.ltb_spec 0 s); [|lia].
  destruct (Z.ltb_spec 0 n).
  - replace (n + s - 1) with (n - 1 - 0 + 1 * s) by lia.
    rewrite Z.div_add by lia. lia.
  - replace n with 0 by lia. symmetry. apply Z.div_small. lia.
Qed.

(** A slice whose bounds are non-negative is a window of the list. *)
Lemma slice_window data (a s : nat) :
  Py.slice data (Z.of_nat a) (Z.of_nat a + Z.of_nat s) = take s (drop a data).
Proof.
  unfold Py.slice, Py.slice_index.
  destruct (Z.ltb_spec (Z.of_nat a) 0); [lia|].
  destruct (Z.ltb_spec (Z.of_nat a + Z.of_nat s) 0); [lia|].
  destruct (decide (a ≤ length data)%nat) as [Hle|Hgt].
  - replace (Z.to_nat (Z.of_nat a `min` Z.of_nat (length data))) with a by lia.
    destruct (decide (a + s ≤ length data)%nat).
    + f_equal. lia.
    + rewrite !take_ge; [done| |]; rewrite length_drop; lia.
  - rewrite !drop_ge by lia. by rewrite !take_nil.
Qed.

(** Consecutive windows of width [s] glue back into one window. *)
Lemma concat_windows data (s a m : nat) :
  concat (map (fun k : nat => take s (drop (k * s) data)) (seq a m))
  = take (m * s) (drop (a * s) data).
Proof.
  revert a. induction m as [|m IH]; intros a; simpl; [done|].
  rewrite IH. replace (S a * s)%nat with (a * s + s)%nat by lia.
  rewrite <- drop_drop. apply take_take_drop.
Qed.

End chunk_facts.

Section chunk_properties.
Context {A : Type}.
Implicit Types (rows : list A).

(** For a positive size the comprehension of [chunk] is the list of the
    windows [rows[k*s : k*s + s]], one per multiple of [s] below [len(rows)]. *)
Lemma chunk_windows rows (s : Z) :
  0 < s →
  chunk rows s =
  Ok (map (fun k : nat => take (Z.to_nat s) (drop (k * Z.to_nat s) rows))
          (seq 0 (Z.to_nat (ceil_div (Z.of_nat (length rows)) s)))).
Proof.
  intros Hs. unfold chunk, Py.range.
  destruct (Z.eqb_spec s 0); [lia|].
  rewrite range_length_pos by lia. f_equal.
  rewrite map_map. apply map_ext. intros k.
  rewrite <- (slice_window rows (k * Z.to_nat s) (Z.to_nat s)).
  f_equal; lia.
Qed.

Lemma last_map_seq {B} (f : nat → B) (m : nat) :
  last (map f (seq 0 (S m))) = Some (f m).
Proof.
  rewrite seq_S, map_app. simpl. apply last_snoc.
Qed.

Lemma chunk_ok_length rows (s : Z) groups :
  0 < s → chunk rows s = Ok groups →
  Z.of_nat (length groups) = ceil_div (Z.of_nat (length rows)) s.
Proof.
  intros Hs. rewrite chunk_windows by done. intros [= <-].
  rewrite length_map, length_seq.
  pose proof (ceil_div_spec (Z.of_nat (length rows)) s ltac:(lia) Hs). nia.
Qed.

Lemma chunk_ok_concat rows (s : Z) groups :
  0 < s → chunk rows s = Ok groups → concat groups = rows.
Proof.
  intros Hs. rewrite chunk_windows by done. intros [= <-].
  rewrite concat_windows. simpl. rewrite drop_0. apply take_ge.
  pose proof (ceil_div_spec (Z.of_nat (length rows)) s ltac:(lia) Hs). nia.
Qed.

(** C1. For every row sequence of length n and every chunk size s > 0,
    [chunk] returns exactly ceil(n/s) groups; each group has at most s rows
    and is the window of consecutive rows starting at a multiple of s; the
    concatenation of the groups is the input; the last group has n mod s
    rows (s rows when s divides n); an empty input yields no group. *)
Theorem chunk_partition rows (s : Z) :
  0 < s →
  let n := Z.of_nat (length rows) in
  ∃ groups : list (list A),
    chunk rows s = Ok groups
    ∧ Z.of_nat (length groups) = ceil_div n s
    ∧ Forall (fun g => Z.of_nat (length g) <= s) groups
    ∧ (∀ (k : nat) g, groups !! k = Some g →
         g = take (Z.to_nat s) (drop (k * Z.to_nat s) rows))
    ∧ concat groups = rows
    ∧ (rows ≠ [] → ∃ g, last groups = Some g
         ∧ Z.of_nat (length g) = if n mod s =? 0 then s else n mod s)
    ∧ (rows = [] → groups = []).
Proof.
  intros Hs n. eexists. split; [by apply chunk_windows|].
  fold n. pose proof (ceil_div_spec n s ltac:(lia) Hs) as Hc.
  set (m := Z.to_nat (ceil_div n s)).
  set (w := Z.to_nat s).
  assert (Hm : Z.of_nat m = ceil_div n s) by (unfold m; nia).
  repeat split.
  - by rewrite length_map, length_seq.
  - apply Forall_forall. intros g Hg.
    apply list_elem_of_fmap in Hg as (k & -> & _).
    rewrite length_take. lia.
  - intros k g Hk. rewrite list_lookup_fmap in Hk.
    destruct (seq 0 m !! k) as [j|] eqn:Hj; [|done].
    apply lookup_seq in Hj as [-> _]. simpl in Hk. by inversion Hk.
  - rewrite concat_windows. simpl. rewrite drop_0.
    apply take_ge. unfold w. nia.
  - intros Hne. assert (0 < n) by (unfold n; destruct rows; simpl; [done|lia]).
    destruct m as [|m'] eqn:Em; [nia|].
    eexists. split; [apply last_map_seq|].
    rewrite length_take, length_drop.
    assert (Hr : 0 < n - Z.of_nat m' * s <= s) by nia.
    assert (Hlen : Z.of_nat (w `min` (length rows - m' * w)) = n - Z.of_nat m' * s)
      by (unfold w, n in *; nia).
    rewrite Hlen.
    destruct (decide (n - Z.of_nat m' * s = s)) as [Heq|Hneq].
    + replace (n mod s) with 0; [by rewrite Heq|].
      symmetry. apply Z.mod_divide; [lia|]. exists (Z.of_nat m' + 1). lia.
    + assert (Hmod : n mod s = n - Z.of_nat m' * s).
      { symmetry. apply (Z.mod_unique_pos n s (Z.of_nat m')); lia. }
      rewrite Hmod. destruct (Z.eqb_spec (n - Z.of_nat m' * s) 0); [lia|done].
  - intros ->. simpl in n. subst n. unfold m, ceil_div.
    replace (0 + s - 1) with (s - 1) by lia.
    rewrite Z.div_small by lia. done.
Qed.

(** C9. The chunk size is not checked: a size of zero raises, and a
    negative size gives no group at all, whatever the rows are. *)
Theorem chunk_unchecked_size rows (s : Z) :
  s <= 0 →
  chunk rows s = (if s =? 0 then Raise (ValueError "range() arg 3 must not be zero")
                  else Ok [])
  ∧ (s < 0 → rows ≠ [] → ∃ groups, chunk rows s = Ok groups ∧ concat groups ≠ rows).
Proof.
  intros Hs.
  assert (Hc : chunk rows s = if s =? 0
                               then Raise (ValueError "range() arg 3 must not be zero")
                               else Ok []).
  { unfold chunk, Py.range. destruct (Z.eqb_spec s 0); [done|].
    unfold Py.range_length.
    destruct (Z.ltb_spec 0 s); [lia|].
    destruct (Z.ltb_spec (Z.of_nat (length rows)) 0); [lia|]. done. }
  split; [done|]. intros Hneg Hne. exists []. split; [|by destruct rows].
  rewrite Hc. destruct (Z.eqb_spec s 0); [lia|done].
Qed.

End chunk_properties.

Lemma chunk_partition_witness :
  0 < 2
  ∧ ∃ groups : list (list nat),
      chunk [10; 20; 30; 40; 50]%nat 2 = Ok groups
      ∧ Z.of_nat (length groups) = ceil_div 5 2
      ∧ concat groups = [10; 20; 30; 40; 50]%nat.
Proof.
  split; [lia|].
  destruct (chunk_partition [10; 20; 30; 40; 50]%nat 2 ltac:(lia))
    as (groups & Hc & Hlen & _ & _ & Hcat & _).
  exists groups. split; [exact Hc|]. split; [exact Hlen|exact Hcat].
Defined.

Lemma chunk_unchecked_size_witness :
  -3 <= 0
  ∧ chunk [10; 20; 30]%nat (-3) = Ok []
  ∧ chunk [10; 20; 30]%nat 0 = Raise (ValueError "range() arg 3 must not be zero").
Proof.
  split; [lia|]. split.
  - exact (proj1 (chunk_unchecked_size [10; 20; 30]%nat (-3) ltac:(lia))).
  - exact (proj1 (chunk_unchecked_size [10; 20; 30]%nat 0 ltac:(lia))).
Defined.

(** ** Relationship kind of an event *)

Lemma rel_type_lookup_cases (k : string) :
  rel_type_lookup k =
    if decide (k = "VIEW") then "VIEWED"
    else if decide (k = "CLICK") then "CLICKED"
    else if decide (k = "ADD_TO_CART") then "ADDED_TO_CART"
    else "INTERACTED_WITH".
Proof.
  unfold rel_type_lookup, rel_type_map.
  rewrite !lookup_insert, lookup_singleton.
  repeat case_decide; simplify_eq; done.
Qed.




Example rel_type_view_any_case :
  rel_type "view" = "VIEWED" ∧ rel_type "VIEW" = "VIEWED" ∧ rel_type "View" = "VIEWED"
  ∧ rel_type "click" = "CLICKED" ∧ rel_type "Add_To_Cart" = "ADDED_TO_CART"
  ∧ rel_type "PURCHASE" = "INTERACTED_WITH" ∧ rel_type "" = "INTERACTED_WITH".
Proof. vm_compute. done. Qed.

(** ** Reasoning about runs *)

Section run_lemmas.
Implicit Types (w : World) (g : Graph) (evs : list Event).

Lemma bind_ok_inv {A B} (m : M A) (f : A → M B) w b w' :
  (m ≫= f) w = (Ok b, w') → ∃ a w1, m w = (Ok a, w1) ∧ f a w1 = (Ok b, w').
Proof.
  unfold mbind, M_bind. destruct (m w) as [[a|e] w1]; [eauto|done].
Qed.

Lemma bind_ok {A B} (m : M A) (f : A → M B) w a w1 :
  m w = (Ok a, w1) → (m ≫= f) w = f a w1.
Proof. unfold mbind, M_bind. by intros ->. Qed.

Lemma bind_raise {A B} (m : M A) (f : A → M B) w e w1 :
  m w = (Raise e, w1) → (m ≫= f) w = (Raise e, w1).
Proof. unfold mbind, M_bind. by intros ->. Qed.

Lemma ret_ok_inv {A} (a b : A) w w' : (mret a : M A) w = (Ok b, w') → b = a ∧ w' = w.
Proof. unfold mret, M_ret. by intros [= -> ->]. Qed.

Lemma lift_ok_inv {A} (r : Res A) (a : A) w w' :
  lift r w = (Ok a, w') → r = Ok a ∧ w' = w.
Proof. unfold lift. by intros [= -> ->]. Qed.

Lemma res_bind_ok_inv {A B} (r : Res A) (f : A → Res B) (b : B) :
  r ≫= f = Ok b → ∃ a, r = Ok a ∧ f a = Ok b.
Proof. destruct r as [a|e]; simpl; [eauto|done]. Qed.

Lemma same_env_refl w : same_env w w.
Proof. by repeat split. Qed.

Lemma same_env_trans w1 w2 w3 : same_env w1 w2 → same_env w2 w3 → same_env w1 w3.
Proof.
  unfold same_env. intros (?&?&?&?&?) (?&?&?&?&?).
  repeat split; congruence.
Qed.

Lemma after_refl w : after w [] (w_graph w) w.
Proof. split; [by rewrite app_nil_r|]. split; [done|apply same_env_refl]. Qed.

Lemma after_trans w evs1 g1 w1 evs2 g2 w2 :
  after w evs1 g1 w1 → after w1 evs2 g2 w2 → after w (evs1 ++ evs2) g2 w2.
Proof.
  intros (Ht1 & _ & He1) (Ht2 & Hg2 & He2). split; [|split].
  - by rewrite Ht2, Ht1, app_assoc.
  - done.
  - by eapply same_env_trans.
Qed.

Lemma after_log w c r : after w [ {| ev_call := c; ev_raised := r |} ] (w_graph w) (log c r w).
Proof. by repeat split. Qed.

Lemma fallible_ok_inv {A} (c : Call) (result : World → A) w a w' :
  fallible c result w = (Ok a, w') →
  a = result w ∧ w' = log c None w ∧ w_fault w (length (w_trace w)) = None.
Proof.
  unfold fallible. destruct (w_fault w (length (w_trace w))); [done|].
  by intros [= <- <-].
Qed.

Lemma infallible_inv (c : Call) w r w' :
  infallible c w = (r, w') → r = Ok tt ∧ w' = log c None w.
Proof. unfold infallible. by intros [= <- <-]. Qed.

Lemma session_run_ok_inv driver q ps w rows w' :
  session_run driver q ps w = (Ok rows, w') →
  ∃ g', Cypher.exec (w_script w) q ps (w_graph w) = Ok g'
        ∧ rows = Cypher.answer (w_read w) q ps (w_graph w)
        ∧ after w [ok_event (Run driver q ps)] g' w'.
Proof.
  unfold session_run. destruct (w_fault w (length (w_trace w))); [done|].
  destruct (Cypher.exec _ q ps (w_graph w)) as [g'|e]; [|done].
  intros [= <- <-]. exists g'. by repeat split.
Qed.

Lemma run_cypher_ok_inv driver q ps w w' :
  run_cypher driver q ps w = (Ok tt, w') →
  ∃ g', Cypher.exec (w_script w) q ps (w_graph w) = Ok g'
        ∧ after w [ok_event (Run driver q ps)] g' w'.
Proof.
  unfold run_cypher. intros (rows & w1 & Hrun & Hret)%bind_ok_inv.
  apply ret_ok_inv in Hret as [_ ->].
  apply session_run_ok_inv in Hrun as (g' & ? & _ & ?). eauto.
Qed.

End run_lemmas.

Section loop_lemmas.
Implicit Types (w : World) (g : Graph) (evs : list Event).

Lemma mapM_cons_ok_inv {A B} (f : A → Res B) x xs ys :
  mapM f (x :: xs) = Ok ys → ∃ y ys', f x = Ok y ∧ mapM f xs = Ok ys' ∧ ys = y :: ys'.
Proof.
  simpl. destruct (f x) as [y|e]; simpl; [|done].
  destruct (mapM f xs) as [ys'|e]; simpl; [|done].
  intros [= <-]. eauto.
Qed.

Lemma mapM_cons_ok {A B} (f : A → Res B) x xs y ys :
  f x = Ok y → mapM f xs = Ok ys → mapM f (x :: xs) = Ok (y :: ys).
Proof. simpl. by intros -> ->. Qed.

Lemma mapM_ok_length {A B} (f : A → Res B) xs ys :
  mapM f xs = Ok ys → length ys = length xs.
Proof.
  revert ys. induction xs as [|x xs IH]; intros ys.
  - by intros [= <-].
  - intros (y & ys' & _ & Hxs & ->)%mapM_cons_ok_inv. simpl. f_equal. eauto.
Qed.

Lemma mapM_ok_app {A B} (f : A → Res B) xs1 xs2 ys1 ys2 :
  mapM f xs1 = Ok ys1 → mapM f xs2 = Ok ys2 → mapM f (xs1 ++ xs2) = Ok (ys1 ++ ys2).
Proof.
  revert ys1. induction xs1 as [|x xs1 IH]; intros ys1.
  - by intros [= <-].
  - intros (y & ys' & Hx & Hxs & ->)%mapM_cons_ok_inv H2. simpl app.
    apply mapM_cons_ok; eauto.
Qed.

Lemma mapM_ok_concat {A B} (f : A → Res B) xss yss :
  mapM (mapM f) xss = Ok yss → mapM f (concat xss) = Ok (concat yss).
Proof.
  revert yss. induction xss as [|xs xss IH]; intros yss.
  - by intros [= <-].
  - intros (ys & yss' & Hx & Hxs & ->)%mapM_cons_ok_inv. simpl.
    apply mapM_ok_app; eauto.
Qed.

Lemma fold_res_app {B} (step : B → Graph → Res Graph) ys1 ys2 g g1 :
  fold_res step ys1 g = Ok g1 → fold_res step (ys1 ++ ys2) g = fold_res step ys2 g1.
Proof.
  revert g. induction ys1 as [|y ys1 IH]; intros g; simpl.
  - by intros [= ->].
  - destruct (step y g) as [g'|e]; simpl; [apply IH|done].
Qed.

Lemma fold_res_concat {B} (step : B → Graph → Res Graph) yss g g' :
  fold_res (fold_res step) yss g = Ok g' → fold_res step (concat yss) g = Ok g'.
Proof.
  revert g. induction yss as [|ys yss IH]; intros g; simpl; [done|].
  destruct (fold_res step ys g) as [g1|e] eqn:E; simpl; [|done].
  intros H. rewrite (fold_res_app _ _ _ _ _ E). by apply IH.
Qed.

(** A [for] loop that ran to its end: every pass prepared its item, sent
    its events and moved the graph one step. *)
Lemma for_each_ok_inv {A B} (body : A → M unit) (prep : A → Res B)
    (evf : B → list Event) (gf : B → Graph → Res Graph) w0 :
  (∀ x w w', same_env w0 w → body x w = (Ok tt, w') →
     ∃ y g', prep x = Ok y ∧ gf y (w_graph w) = Ok g' ∧ after w (evf y) g' w') →
  ∀ xs w w', same_env w0 w → for_each xs body w = (Ok tt, w') →
    ∃ ys g', mapM prep xs = Ok ys ∧ fold_res gf ys (w_graph w) = Ok g'
             ∧ after w (concat (map evf ys)) g' w'.
Proof.
  intros Hbody xs. induction xs as [|x xs IH]; intros w w' Henv; simpl.
  - intros [_ ->]%ret_ok_inv. exists [], (w_graph w).
    split; [done|]. split; [done|]. apply after_refl.
  - intros ([] & w1 & Hx & Hxs)%bind_ok_inv.
    destruct (Hbody _ _ _ Henv Hx) as (y & g1 & Hp & Hg & Ha).
    assert (Henv1 : same_env w0 w1) by (eapply same_env_trans; [done|apply Ha]).
    destruct (IH _ _ Henv1 Hxs) as (ys & g' & Hps & Hgs & Has).
    exists (y :: ys), g'. split; [by apply mapM_cons_ok|]. split.
    + simpl. rewrite Hg. simpl. destruct Ha as (_ & <- & _). done.
    + simpl. by eapply after_trans.
Qed.

End loop_lemmas.

Section statement_loops.
Implicit Types (w : World) (g : Graph) (qs : list (Stmt * Params)).

Lemma run_events_app driver qs1 qs2 :
  run_events driver (qs1 ++ qs2) = run_events driver qs1 ++ run_events driver qs2.
Proof. apply map_app. Qed.

Lemma run_events_concat driver (qss : list (list (Stmt * Params))) :
  concat (map (run_events driver) qss) = run_events driver (concat qss).
Proof.
  induction qss as [|qs qss IH]; simpl; [done|]. by rewrite IH, run_events_app.
Qed.

Lemma exec_stmts_app script qs1 qs2 g g1 :
  exec_stmts script qs1 g = Ok g1 →
  exec_stmts script (qs1 ++ qs2) g = exec_stmts script qs2 g1.
Proof. apply fold_res_app. Qed.

Lemma exec_stmts_single script q ps g g' :
  Cypher.exec script q ps g = Ok g' → exec_stmts script [(q, ps)] g = Ok g'.
Proof. unfold exec_stmts. cbn [fold_res fst snd]. by intros ->. Qed.

(** A loop whose passes each send a list of statements. *)
Lemma for_each_runs_ok_inv {A} (body : A → M unit)
    (prep : A → Res (list (Stmt * Params))) driver w0 :
  (∀ x w w', same_env w0 w → body x w = (Ok tt, w') →
     ∃ qs g', prep x = Ok qs ∧ exec_stmts (w_script w0) qs (w_graph w) = Ok g'
              ∧ after w (run_events driver qs) g' w') →
  ∀ xs w w', same_env w0 w → for_each xs body w = (Ok tt, w') →
    ∃ qss g', mapM prep xs = Ok qss
              ∧ exec_stmts (w_script w0) (concat qss) (w_graph w) = Ok g'
              ∧ after w (run_events driver (concat qss)) g' w'.
Proof.
  intros Hbody xs w w' Henv Hrun.
  destruct (for_each_ok_inv body prep (run_events driver) (exec_stmts (w_script w0))
              w0 Hbody xs w w' Henv Hrun) as (qss & g' & Hp & Hg & Ha).
  exists qss, g'. split; [done|]. split.
  - by apply fold_res_concat.
  - by rewrite <- run_events_concat.
Qed.

Lemma mapM_singletons {A B C} (f : A → Res B) (h : B → C) xs (qss : list (list C)) :
  mapM (fun x => y ← f x; Ok [h y]) xs = Ok qss →
  ∃ ys, mapM f xs = Ok ys ∧ concat qss = map h ys.
Proof.
  revert qss. induction xs as [|x xs IH]; intros qss.
  - intros [= <-]. by exists [].
  - intros (q & qss' & Hx & Hxs & ->)%mapM_cons_ok_inv.
    apply res_bind_ok_inv in Hx as (y & Hy & [= <-]).
    destruct (IH _ Hxs) as (ys & Hys & Hc).
    exists (y :: ys). split; [by apply mapM_cons_ok|]. simpl. by rewrite Hc.
Qed.

Lemma mapM_script_stmts (statements : list string) qss :
  mapM (fun st => Ok (if Str.truthy st then [(Script st, (∅ : Params))] else []))
       statements = Ok qss →
  concat qss = script_stmts statements.
Proof.
  revert qss. induction statements as [|st sts IH]; intros qss.
  - by intros [= <-].
  - intros (q & qss' & [= <-] & Hxs & ->)%mapM_cons_ok_inv.
    unfold script_stmts. simpl. rewrite (IH _ Hxs).
    by destruct (Str.truthy st).
Qed.

Lemma run_cypher_file_ok_inv driver w w' :
  run_cypher_file driver w = (Ok tt, w') →
  ∃ g', after w (ok_event ReadFile
                 :: run_events driver (script_stmts (cypher_statements (w_script_file w))))
              g' w'.
Proof.
  unfold run_cypher_file.
  intros (content & w1 & Hread & Hloop)%bind_ok_inv.
  apply fallible_ok_inv in Hread as (-> & -> & _).
  eapply (for_each_runs_ok_inv _
            (fun st => Ok (if Str.truthy st then [(Script st, ∅)] else []))
            driver w) in Hloop as (qss & g' & Hp & _ & Ha).
  - exists g'. apply mapM_script_stmts in Hp. rewrite Hp in Ha.
    apply (after_trans w [ok_event ReadFile] (w_graph w) _ _ _ _ (after_log w _ _) Ha).
  - intros st w1 w2 Henv Hst.
    destruct (Str.truthy st).
    + apply run_cypher_ok_inv in Hst as (g' & Hg & Ha).
      exists [(Script st, ∅)], g'. split; [done|]. split; [|done].
      apply exec_stmts_single. destruct Henv as (_ & _ & _ & <- & _). done.
    + apply ret_ok_inv in Hst as [_ ->]. exists [], (w_graph w1).
      split; [done|]. split; [done|apply after_refl].
  - apply (after_log w ReadFile None).
Qed.

Lemma load_batches_ok_inv driver q prepare df w w' :
  load_batches driver q prepare df w = (Ok tt, w') →
  ∃ batches g',
    prepared_batches prepare df = Ok batches
    ∧ exec_stmts (w_script w) (batch_stmts q batches) (w_graph w) = Ok g'
    ∧ after w (run_events driver (batch_stmts q batches)) g' w'.
Proof.
  unfold load_batches.
  intros (chunks & w1 & [Hchunk ->]%lift_ok_inv & Hloop)%bind_ok_inv.
  eapply (for_each_runs_ok_inv _
            (fun batch => records ← mapM prepare batch;
                          Ok [(q, {[ "batch" := PList records ]})])
            driver w) in Hloop as (qss & g' & Hp & Hg & Ha).
  - apply mapM_singletons in Hp as (batches & Hb & Hc).
    exists batches, g'. unfold batch_stmts. rewrite <- Hc.
    split; [|done]. unfold prepared_batches. rewrite Hchunk. done.
  - intros batch w1 w2 Henv (records & w3 & [Hprep ->]%lift_ok_inv & Hrun)%bind_ok_inv.
    apply run_cypher_ok_inv in Hrun as (g' & Hg & Ha).
    exists [(q, {[ "batch" := PList records ]})], g'.
    split; [by rewrite Hprep|]. split; [|done].
    apply exec_stmts_single. destruct Henv as (_ & _ & _ & <- & _). done.
  - apply same_env_refl.
Qed.

Lemma load_event_ok_inv driver record w w' :
  load_event driver record w = (Ok tt, w') →
  ∃ qp g', event_stmt record = Ok qp
           ∧ Cypher.exec (w_script w) qp.1 qp.2 (w_graph w) = Ok g'
           ∧ after w [ok_event (Run driver qp.1 qp.2)] g' w'.
Proof.
  unfold load_event, event_stmt.
  intros (et & w1 & [-> ->]%lift_ok_inv & H)%bind_ok_inv.
  apply bind_ok_inv in H as (ts & w1 & [-> ->]%lift_ok_inv & H).
  apply bind_ok_inv in H as (cid & w1 & [-> ->]%lift_ok_inv & H).
  apply bind_ok_inv in H as (pid & w1 & [-> ->]%lift_ok_inv & H).
  apply bind_ok_inv in H as (eid & w1 & [-> ->]%lift_ok_inv & H).
  apply run_cypher_ok_inv in H as (g' & Hg & Ha).
  eexists (_, _), g'. simpl. done.
Qed.

End statement_loops.

Section event_loop.
Implicit Types (w : World) (g : Graph).

Lemma chunk_default_concat {A} (df : list A) chunks :
  chunk df default_chunk_size = Ok chunks → concat chunks = df.
Proof.
  by apply chunk_ok_concat.
Qed.

Lemma load_events_ok_inv driver df w w' :
  (batches ← lift (chunk df default_chunk_size);
   for_each batches (fun batch => for_each batch (load_event driver))) w = (Ok tt, w') →
  ∃ events g',
    mapM event_stmt df = Ok events
    ∧ exec_stmts (w_script w) events (w_graph w) = Ok g'
    ∧ after w (run_events driver events) g' w'.
Proof.
  intros (chunks & w1 & [Hchunk ->]%lift_ok_inv & Hloop)%bind_ok_inv.
  eapply (for_each_runs_ok_inv _ (mapM event_stmt) driver w)
    in Hloop as (qss & g' & Hp & Hg & Ha).
  - exists (concat qss), g'. split; [|done].
    apply mapM_ok_concat in Hp. by rewrite (chunk_default_concat _ _ Hchunk) in Hp.
  - intros batch w1 w2 Henv Hbatch.
    eapply (for_each_runs_ok_inv _ (fun record => qp ← event_stmt record; Ok [qp])
              driver w) in Hbatch as (qss & g' & Hp & Hg & Ha); [| |done].
    + apply (mapM_singletons event_stmt (fun qp => qp)) in Hp as (ys & Hys & Hc).
      rewrite map_id in Hc. rewrite Hc in *. by exists ys, g'.
    + intros record w3 w4 Henv3 Hrec.
      apply load_event_ok_inv in Hrec as (qp & g' & Hqp & Hg & Ha).
      exists [qp], g'. split; [by rewrite Hqp|]. split; [|done].
      destruct qp as [q ps]. apply exec_stmts_single.
      destruct Henv3 as (_ & _ & _ & <- & _). done.
  - apply same_env_refl.
Qed.

End event_loop.

Section quiet_lemmas.
Implicit Types (w : World).

Lemma probes_only_app evs1 evs2 :
  probes_only evs1 → probes_only evs2 → probes_only (evs1 ++ evs2).
Proof. apply Forall_app_2. Qed.

Lemma quiet_ret {A} (a : A) : quiet (mret a : M A).
Proof.
  intros w r w' [= <- <-]. exists []. split; [apply after_refl|constructor].
Qed.

Lemma quiet_raise {A} (e : Exn) : quiet (raise e : M A).
Proof.
  intros w r w' [= <- <-]. exists []. split; [apply after_refl|constructor].
Qed.

Lemma quiet_lift {A} (x : Res A) : quiet (lift x).
Proof.
  intros w r w' [= <- <-]. exists []. split; [apply after_refl|constructor].
Qed.

Lemma quiet_bind {A B} (m : M A) (f : A → M B) :
  quiet m → (∀ a, quiet (f a)) → quiet (m ≫= f).
Proof.
  intros Hm Hf w r w'. unfold mbind, M_bind.
  destruct (m w) as [[a|e] w1] eqn:Em; intros H.
  - destruct (Hm _ _ _ Em) as (evs1 & Ha1 & Hp1).
    destruct (Hf a _ _ _ H) as (evs2 & Ha2 & Hp2).
    exists (evs1 ++ evs2). split; [|by apply probes_only_app].
    pose proof Ha1 as (_ & Hg1 & _). rewrite <- Hg1.
    exact (after_trans _ _ _ _ _ _ _ Ha1 Ha2).
  - injection H as <- <-. eauto.
Qed.

Lemma quiet_try_except {A} (body : M A) (handler : Exn → M A) :
  quiet body → (∀ e, quiet (handler e)) → quiet (try_except body handler).
Proof.
  intros Hm Hf w r w'. unfold try_except.
  destruct (body w) as [[a|e] w1] eqn:Em; intros H.
  - injection H as <- <-. eauto.
  - destruct (Hm _ _ _ Em) as (evs1 & Ha1 & Hp1).
    destruct (Hf e _ _ _ H) as (evs2 & Ha2 & Hp2).
    exists (evs1 ++ evs2). split; [|by apply probes_only_app].
    pose proof Ha1 as (_ & Hg1 & _). rewrite <- Hg1.
    exact (after_trans _ _ _ _ _ _ _ Ha1 Ha2).
Qed.

Lemma quiet_fallible {A} (c : Call) (result : World → A) :
  probes_only [ok_event c] → quiet (fallible c result).
Proof.
  intros Hc w r w'. unfold fallible.
  unfold probes_only in Hc. rewrite Forall_singleton in Hc. simpl in Hc.
  destruct (w_fault w (length (w_trace w))); intros [= <- <-];
    (eexists; split; [apply after_log|]); by apply Forall_singleton.
Qed.

Lemma quiet_infallible (c : Call) :
  probes_only [ok_event c] → quiet (infallible c).
Proof.
  intros Hc w r w' [-> ->]%infallible_inv. eexists. split; [apply after_log|done].
Qed.

Lemma quiet_probe driver ps : quiet (session_run driver Return1 ps).
Proof.
  intros w r w'. unfold session_run.
  destruct (w_fault w (length (w_trace w))); simpl; intros [= <- <-];
    (eexists; split; [apply (after_log w (Run driver Return1 ps))|]);
    by apply Forall_singleton.
Qed.

Lemma quiet_wait_for_postgres max_retries delay : quiet (wait_for_postgres max_retries delay).
Proof.
  unfold wait_for_postgres. apply quiet_bind; [apply quiet_lift|].
  intros attempts. induction attempts as [|i rest IH]; simpl; [apply quiet_ret|].
  apply quiet_bind.
  - apply quiet_try_except.
    + apply quiet_bind; [by apply quiet_fallible; apply Forall_singleton|].
      intros conn. apply quiet_bind; [|intros; apply quiet_ret].
      by apply quiet_infallible, Forall_singleton.
    + intros []; try apply quiet_raise.
      destruct (i <? max_retries - 1); [|apply quiet_raise].
      apply quiet_bind; [|intros; apply quiet_ret].
      by apply quiet_infallible, Forall_singleton.
  - intros []; [apply quiet_ret|apply IH].
Qed.

Lemma quiet_wait_for_neo4j max_retries delay : quiet (wait_for_neo4j max_retries delay).
Proof.
  unfold wait_for_neo4j. apply quiet_bind; [apply quiet_lift|].
  intros attempts. induction attempts as [|i rest IH]; simpl; [apply quiet_ret|].
  apply quiet_bind.
  - apply quiet_try_except.
    + apply quiet_bind; [by apply quiet_fallible; apply Forall_singleton|].
      intros driver. apply quiet_bind; [apply quiet_probe|].
      intros _. apply quiet_bind; [|intros; apply quiet_ret].
      by apply quiet_infallible, Forall_singleton.
    + intros e. destruct (i <? max_retries - 1); [|apply quiet_raise].
      apply quiet_bind; [|intros; apply quiet_ret].
      by apply quiet_infallible, Forall_singleton.
  - intros []; [apply quiet_ret|apply IH].
Qed.

End quiet_lemmas.

Section etl_success.
Implicit Types (w : World) (g : Graph).

Lemma try_finally_ok_inv {A} (body : M A) (cleanup : M unit) w a w' :
  try_finally body cleanup w = (Ok a, w') →
  ∃ w1, body w = (Ok a, w1) ∧ cleanup w1 = (Ok tt, w').
Proof.
  unfold try_finally. destruct (body w) as [r w1].
  destruct (cleanup w1) as [[[]|e] w2] eqn:Ec; [|done].
  intros [= -> ->]. eauto.
Qed.

Lemma fallible_ok_after {A} (c : Call) (result : World → A) w a w' :
  fallible c result w = (Ok a, w') →
  a = result w ∧ after w [ok_event c] (w_graph w) w'.
Proof.
  intros (-> & -> & _)%fallible_ok_inv. split; [done|apply after_log].
Qed.

Lemma infallible_after (c : Call) w r w' :
  infallible c w = (r, w') → r = Ok tt ∧ after w [ok_event c] (w_graph w) w'.
Proof.
  intros (-> & ->)%infallible_inv. split; [done|apply after_log].
Qed.

Lemma count_query_ok_inv driver q w v w' :
  (∀ script ps g, Cypher.exec script q ps g = Ok g) →
  count_query driver q w = (Ok v, w') →
  after w [ok_event (Run driver q ∅)] (w_graph w) w'.
Proof.
  intros Hq. unfold count_query.
  intros (rows & w1 & Hrun & [_ ->]%lift_ok_inv)%bind_ok_inv.
  apply session_run_ok_inv in Hrun as (g' & Hg & _ & Ha).
  rewrite Hq in Hg. by injection Hg as <-.
Qed.

Ltac open_after :=
  repeat match goal with
  | H : after _ _ _ _ |- _ => destruct H as (? & ? & ? & ? & ? & ? & ?)
  end.

Ltac push_env :=
  repeat match goal with
  | E : w_graph ?x = _ |- _ => first [rewrite E in * | idtac]; clear E
  | E : w_tables ?x = _ |- _ => first [rewrite E in * | idtac]; clear E
  | E : w_script_file ?x = _ |- _ => first [rewrite E in * | idtac]; clear E
  | E : w_fault ?x = _ |- _ => first [rewrite E in * | idtac]; clear E
  | E : w_script ?x = _ |- _ => first [rewrite E in * | idtac]; clear E
  | E : w_read ?x = _ |- _ => first [rewrite E in * | idtac]; clear E
  | E : w_trace ?x = _ |- _ => first [rewrite E in * | idtac]; clear E
  end.

Lemma etl_ok_inv w w' :
  etl w = (Ok tt, w') →
  ∃ probes pg drv stmts,
    probes_only probes
    ∧ load_stmts (w_tables w) = Ok stmts
    ∧ exec_stmts (w_script w) stmts empty_graph = Ok (w_graph w')
    ∧ w_trace w' = w_trace w ++ probes ++ etl_events pg drv (w_script_file w) stmts
    ∧ same_env w w'.
Proof.
  unfold etl.
  intros ([] & w1 & Hwp & H)%bind_ok_inv.
  apply quiet_wait_for_postgres in Hwp as (evs1 & Ha1 & Hp1).
  apply bind_ok_inv in H as ([] & w2 & Hwn & H).
  apply quiet_wait_for_neo4j in Hwn as (evs2 & Ha2 & Hp2).
  apply bind_ok_inv in H as (pg & w3 & [_ Ha3]%fallible_ok_after & H).
  apply bind_ok_inv in H as (drv & w4 & [_ Ha4]%fallible_ok_after & H).
  apply try_finally_ok_inv in H as (w5 & Hbody & Hclean).
  apply bind_ok_inv in Hclean as ([] & w6 & [_ Hc1]%infallible_after & [_ Hc2]%infallible_after).
  unfold etl_body in Hbody.
  apply bind_ok_inv in Hbody as ([] & b1 & (gs & Hb1)%run_cypher_file_ok_inv & H).
  apply bind_ok_inv in H as ([] & b2 & (g0 & Hg0 & Hb2)%run_cypher_ok_inv & H).
  apply bind_ok_inv in H as (df_categories & b3 & [-> Hb3]%fallible_ok_after & H).
  apply bind_ok_inv in H as (df_products & b4 & [-> Hb4]%fallible_ok_after & H).
  apply bind_ok_inv in H as (df_customers & b5 & [-> Hb5]%fallible_ok_after & H).
  apply bind_ok_inv in H as (df_orders & b6 & [-> Hb6]%fallible_ok_after & H).
  apply bind_ok_inv in H as (df_order_items & b7 & [-> Hb7]%fallible_ok_after & H).
  apply bind_ok_inv in H as (df_events & b8 & [-> Hb8]%fallible_ok_after & H).
  apply bind_ok_inv in H as ([] & l1 & (cats & g1 & Hcats & Hg1 & Hl1)%load_batches_ok_inv & H).
  apply bind_ok_inv in H as ([] & l2 & (prods & g2 & Hprods & Hg2 & Hl2)%load_batches_ok_inv & H).
  apply bind_ok_inv in H as ([] & l3 & (custs & g3 & Hcusts & Hg3 & Hl3)%load_batches_ok_inv & H).
  apply bind_ok_inv in H as ([] & l4 & (ords & g4 & Hords & Hg4 & Hl4)%load_batches_ok_inv & H).
  apply bind_ok_inv in H as ([] & l5 & (items & g5 & Hitems & Hg5 & Hl5)%load_batches_ok_inv & H).
  apply bind_ok_inv in H as ([] & l6 & (events & g6 & Hevents & Hg6 & Hl6)%load_events_ok_inv & H).
  apply bind_ok_inv in H as (v1 & c1 & Hv1%count_query_ok_inv & H); [|done].
  apply bind_ok_inv in H as (v2 & c2 & Hv2%count_query_ok_inv & H); [|done].
  apply bind_ok_inv in H as (v3 & c3 & Hv3%count_query_ok_inv & H); [|done].
  apply bind_ok_inv in H as (v4 & c4 & Hv4%count_query_ok_inv & H); [|done].
  apply bind_ok_inv in H as (v5 & c5 & Hv5%count_query_ok_inv & H); [|done].
  apply ret_ok_inv in H as [_ ->].
  simpl in Hg0. injection Hg0 as <-.
  unfold same_env. open_after. push_env.
  exists (evs1 ++ evs2), pg, drv,
    (batch_stmts CreateCategories cats ++ batch_stmts CreateProducts prods
     ++ batch_stmts CreateCustomers custs ++ batch_stmts CreateOrders ords
     ++ batch_stmts CreateOrderItems items ++ events).
  split; [by apply probes_only_app|]. split.
  { unfold load_stmts. rewrite Hcats, Hprods, Hcusts, Hords, Hitems, Hevents. done. }
  split.
  { rewrite (exec_stmts_app _ _ _ _ _ Hg1), (exec_stmts_app _ _ _ _ _ Hg2),
      (exec_stmts_app _ _ _ _ _ Hg3), (exec_stmts_app _ _ _ _ _ Hg4),
      (exec_stmts_app _ _ _ _ _ Hg5). done. }
  split; [|done].
  unfold etl_events, table_names. rewrite !run_events_app.
  change (run_events drv count_stmts)
    with (map (fun q => ok_event (Run drv q ∅))
            [CountNodes "Customer"; CountNodes "Product"; CountNodes "Order";
             CountNodes "Category"; CountRels]).
  cbn [map app]. rewrite <- !app_assoc. cbn [app]. reflexivity.
Qed.
End etl_success.

Section counting.
Implicit Types (w : World) (evs : list Event) (P : Stmt → bool).

Lemma runs_of_app P evs1 evs2 :
  runs_of P (evs1 ++ evs2) = (runs_of P evs1 + runs_of P evs2)%nat.
Proof. unfold runs_of. by rewrite List.filter_app, length_app. Qed.

Lemma runs_of_probes P evs :
  probes_only evs → P Return1 = false → runs_of P evs = 0%nat.
Proof.
  intros Hp HP. unfold runs_of. induction Hp as [|ev evs Hev _ IH]; [done|].
  simpl. destruct (ev_call ev); try done. by rewrite Hev, HP.
Qed.

Lemma runs_of_run_events P driver (qs : list (Stmt * Params)) :
  runs_of P (run_events driver qs) = length (List.filter (fun qp => P qp.1) qs).
Proof.
  unfold runs_of, run_events. induction qs as [|[q ps] qs IH]; [done|].
  simpl. destruct (P q); simpl; by rewrite IH.
Qed.

Lemma runs_of_single P driver q ps :
  runs_of P [ok_event (Run driver q ps)] = if P q then 1%nat else 0%nat.
Proof. unfold runs_of. cbn. by destruct (P q). Qed.

Lemma runs_of_other P evs :
  Forall (fun ev => match ev_call ev with Run _ _ _ => False | _ => True end) evs →
  runs_of P evs = 0%nat.
Proof.
  intros H. unfold runs_of. induction H as [|ev evs Hev _ IH]; [done|].
  cbn [List.filter]. by destruct (ev_call ev).
Qed.

Lemma count_batch_stmts P q (batches : list (list Row)) :
  length (List.filter (fun qp : Stmt * Params => P qp.1) (batch_stmts q batches))
  = if P q then length batches else 0%nat.
Proof.
  unfold batch_stmts. induction batches as [|b bs IH]; simpl; [by destruct (P q)|].
  destruct (P q); simpl; by rewrite IH.
Qed.

Lemma count_script_stmts P (statements : list string) :
  (∀ text, P (Script text) = false) →
  length (List.filter (fun qp : Stmt * Params => P qp.1) (script_stmts statements)) = 0%nat.
Proof.
  intros HP. unfold script_stmts.
  induction (List.filter Str.truthy statements) as [|st sts IH]; [done|].
  simpl. by rewrite HP.
Qed.

Lemma event_stmt_kind record qp :
  event_stmt record = Ok qp → ∃ kind, qp.1 = CreateEvent kind.
Proof.
  unfold event_stmt.
  intros (et & _ & H)%res_bind_ok_inv.
  apply res_bind_ok_inv in H as (ts & _ & H).
  apply res_bind_ok_inv in H as (cid & _ & H).
  apply res_bind_ok_inv in H as (pid & _ & H).
  apply res_bind_ok_inv in H as (eid & _ & [= <-]).
  by eexists.
Qed.

Lemma count_event_stmts P (b : bool) (rows : list Row) events :
  (∀ kind, P (CreateEvent kind) = b) →
  mapM event_stmt rows = Ok events →
  length (List.filter (fun qp : Stmt * Params => P qp.1) events)
  = if b then length rows else 0%nat.
Proof.
  intros HP. revert events. induction rows as [|r rows IH]; intros events.
  - intros [= <-]. by destruct b.
  - intros (qp & qps & Hqp & Hqps & ->)%mapM_cons_ok_inv.
    apply event_stmt_kind in Hqp as [kind Hk].
    simpl. rewrite Hk, HP. destruct b; simpl; by rewrite (IH _ Hqps).
Qed.

Lemma prepared_batches_length prepare (df : list Row) batches :
  prepared_batches prepare df = Ok batches →
  Z.of_nat (length batches) = ceil_div (Z.of_nat (length df)) default_chunk_size.
Proof.
  unfold prepared_batches.
  intros (chunks & Hchunk & Hprep)%res_bind_ok_inv.
  apply mapM_ok_length in Hprep. rewrite Hprep.
  by apply chunk_ok_length.
Qed.

Lemma load_stmts_inv tables stmts :
  load_stmts tables = Ok stmts →
  ∃ cats prods custs ords items events,
    prepared_batches Ok (tables "categories") = Ok cats
    ∧ prepared_batches Ok (tables "products") = Ok prods
    ∧ prepared_batches customer_record (tables "customers") = Ok custs
    ∧ prepared_batches order_record (tables "orders") = Ok ords
    ∧ prepared_batches Ok (tables "order_items") = Ok items
    ∧ mapM event_stmt (tables "events") = Ok events
    ∧ stmts = batch_stmts CreateCategories cats ++ batch_stmts CreateProducts prods
              ++ batch_stmts CreateCustomers custs ++ batch_stmts CreateOrders ords
              ++ batch_stmts CreateOrderItems items ++ events.
Proof.
  unfold load_stmts.
  intros (cats & ? & H)%res_bind_ok_inv.
  apply res_bind_ok_inv in H as (prods & ? & H).
  apply res_bind_ok_inv in H as (custs & ? & H).
  apply res_bind_ok_inv in H as (ords & ? & H).
  apply res_bind_ok_inv in H as (items & ? & H).
  apply res_bind_ok_inv in H as (events & ? & [= <-]).
  by exists cats, prods, custs, ords, items, events.
Qed.

(** Number of calls of one kind of statement in a run that returned. *)
Lemma etl_runs_of P (b : bool) w w' :
  etl w = (Ok tt, w') →
  P Return1 = false → (∀ text, P (Script text) = false) →
  P DetachDeleteAll = false → (∀ label, P (CountNodes label) = false) →
  P CountRels = false → (∀ kind, P (CreateEvent kind) = b) →
  let batches table := ceil_div (Z.of_nat (length (w_tables w table))) default_chunk_size in
  Z.of_nat (runs_of P (drop (length (w_trace w)) (w_trace w')))
  = (if P CreateCategories then batches "categories" else 0)
    + (if P CreateProducts then batches "products" else 0)
    + (if P CreateCustomers then batches "customers" else 0)
    + (if P CreateOrders then batches "orders" else 0)
    + (if P CreateOrderItems then batches "order_items" else 0)
    + (if b then Z.of_nat (length (w_tables w "events")) else 0).
Proof.
  intros Hrun HP1 HPs HPd HPc HPr HPe batches.
  apply etl_ok_inv in Hrun as (probes & pg & drv & stmts & Hp & Hst & _ & Ht & _).
  rewrite Ht, drop_app_length.
  apply load_stmts_inv in Hst
    as (cats & prods & custs & ords & items & events
        & Hcats%prepared_batches_length & Hprods%prepared_batches_length
        & Hcusts%prepared_batches_length & Hords%prepared_batches_length
        & Hitems%prepared_batches_length & Hev & ->).
  unfold etl_events.
  rewrite !runs_of_app, (runs_of_probes _ _ Hp HP1), !runs_of_run_events.
  rewrite !List.filter_app, !length_app, !count_batch_stmts.
  rewrite (count_script_stmts _ _ HPs), (count_event_stmts _ _ _ _ HPe Hev).
  rewrite (runs_of_single _ drv DetachDeleteAll), HPd.
  rewrite !runs_of_other by (repeat constructor).
  unfold count_stmts. cbn [List.filter fst]. rewrite !HPc, HPr.
  cbn [length]. unfold batches.
  destruct (P CreateCategories), (P CreateProducts), (P CreateCustomers),
    (P CreateOrders), (P CreateOrderItems), b; lia.
Qed.

End counting.

(** ** The pipeline as a whole *)

Section pipeline_properties.
Implicit Types (w : World).

(** C5. In a run that returns, each batched entity type costs one bulk
    statement per chunk, ceil(row_count / chunk_size) calls in all, and the
    events cost one statement per event row. *)
Theorem etl_call_counts w w' :
  etl w = (Ok tt, w') →
  let sent := drop (length (w_trace w)) (w_trace w') in
  let rows table := Z.of_nat (length (w_tables w table)) in
  Z.of_nat (runs_of (is_stmt CreateCategories) sent)
    = ceil_div (rows "categories") default_chunk_size
  ∧ Z.of_nat (runs_of (is_stmt CreateProducts) sent)
    = ceil_div (rows "products") default_chunk_size
  ∧ Z.of_nat (runs_of (is_stmt CreateCustomers) sent)
    = ceil_div (rows "customers") default_chunk_size
  ∧ Z.of_nat (runs_of (is_stmt CreateOrders) sent)
    = ceil_div (rows "orders") default_chunk_size
  ∧ Z.of_nat (runs_of (is_stmt CreateOrderItems) sent)
    = ceil_div (rows "order_items") default_chunk_size
  ∧ Z.of_nat (runs_of is_create_event sent) = rows "events".
Proof.
  intros Hrun sent rows. unfold sent.
  repeat split.
  1-5: rewrite (etl_runs_of _ false w w' Hrun) by done; simpl; unfold rows; lia.
  rewrite (etl_runs_of _ true w w' Hrun) by done. simpl. unfold rows. lia.
Qed.

(** A run that returns leaves the graph that the tables alone determine. *)
Lemma etl_loads_from_nothing w w' :
  etl w = (Ok tt, w') →
  loaded_graph (w_script w) (w_tables w) = Ok (w_graph w') ∧ same_env w w'.
Proof.
  intros (probes & pg & drv & stmts & _ & Hst & Hg & _ & Henv)%etl_ok_inv.
  split; [|done]. unfold loaded_graph. by rewrite Hst.
Qed.

(** C4. Two runs in succession over the same relational source end with
    the same graph, hence the same node and relationship counts: each run
    replaces the graph by what the tables determine, whatever it held
    before. *)
Theorem etl_idempotent w0 w1 w2 :
  etl w0 = (Ok tt, w1) →
  etl w1 = (Ok tt, w2) →
  w_tables w1 = w_tables w0
  ∧ w_graph w2 = w_graph w1
  ∧ (∀ label, Cypher.count_nodes (w_graph w2) label = Cypher.count_nodes (w_graph w1) label)
  ∧ Cypher.count_rels (w_graph w2) = Cypher.count_rels (w_graph w1)
  ∧ (∀ w w', w_tables w = w_tables w0 → w_script w = w_script w0 →
             etl w = (Ok tt, w') → w_graph w' = w_graph w1).
Proof.
  intros [Hg1 Henv1]%etl_loads_from_nothing [Hg2 Henv2]%etl_loads_from_nothing.
  destruct Henv1 as (Htab & _ & _ & Hscr & _).
  rewrite Htab, Hscr in Hg2.
  assert (Heq : w_graph w2 = w_graph w1) by congruence.
  split; [done|]. split; [done|]. split; [by rewrite Heq|]. split; [by rewrite Heq|].
  intros w w' Ht Hs [Hg _]%etl_loads_from_nothing.
  rewrite Ht, Hs in Hg. congruence.
Qed.

End pipeline_properties.

(** A run whose result component is [Ok tt] returned, in its own final world. *)
Lemma run_returned {A} (m : M A) (w : World) (a : A) :
  (m w).1 = Ok a → m w = (Ok a, (m w).2).
Proof. destruct (m w) as [r w']. simpl. by intros ->. Qed.

Lemma etl_call_counts_witness :
  ∃ w', etl Sample.world = (Ok tt, w')
    ∧ Z.of_nat (runs_of (is_stmt CreateOrderItems)
                  (drop (length (w_trace Sample.world)) (w_trace w')))
      = ceil_div (Z.of_nat (length (w_tables Sample.world "order_items"))) default_chunk_size
    ∧ Z.of_nat (runs_of is_create_event
                  (drop (length (w_trace Sample.world)) (w_trace w')))
      = Z.of_nat (length (w_tables Sample.world "events")).
Proof.
  assert (H : etl Sample.world = (Ok tt, (etl Sample.world).2))
    by (apply run_returned; vm_compute; reflexivity).
  exists (etl Sample.world).2. split; [exact H|].
  destruct (etl_call_counts Sample.world _ H) as (_ & _ & _ & _ & Hi & He).
  split; [exact Hi|exact He].
Defined.

Lemma etl_idempotent_witness :
  ∃ w1 w2, etl Sample.world = (Ok tt, w1) ∧ etl w1 = (Ok tt, w2)
    ∧ w_graph w2 = w_graph w1
    ∧ Cypher.count_rels (w_graph w2) = Cypher.count_rels (w_graph w1).
Proof.
  assert (H1 : etl Sample.world = (Ok tt, (etl Sample.world).2))
    by (apply run_returned; vm_compute; reflexivity).
  assert (H2 : etl (etl Sample.world).2 = (Ok tt, (etl (etl Sample.world).2).2))
    by (apply run_returned; vm_compute; reflexivity).
  exists (etl Sample.world).2, (etl (etl Sample.world).2).2.
  split; [exact H1|]. split; [exact H2|].
  destruct (etl_idempotent Sample.world _ _ H1 H2) as (_ & Hg & _ & Hr & _).
  split; [exact Hg|exact Hr].
Defined.

(** The sample shop: the run returns, the stale node is gone, the order item
    of the missing order leaves no relationship, and the counts are those of
    the tables. *)
Example etl_sample_counts :
  let g := w_graph (etl Sample.world).2 in
  (etl Sample.world).1 = Ok tt
  ∧ Cypher.count_nodes g "Stale" = 0
  ∧ Cypher.count_nodes g "Category" = 2 ∧ Cypher.count_nodes g "Product" = 3
  ∧ Cypher.count_nodes g "Customer" = 2 ∧ Cypher.count_nodes g "Order" = 2
  ∧ Cypher.count_rels_of g "IN_CATEGORY" = 3 ∧ Cypher.count_rels_of g "PLACED" = 2
  ∧ Cypher.count_rels_of g "CONTAINS" = 2 ∧ Cypher.count_rels_of g "VIEWED" = 1
  ∧ Cypher.count_rels g = 8.
Proof. vm_compute. done. Qed.

(** ** Events, the bootstrap script, referential gaps *)

Section event_properties.
Implicit Types (w : World) (record : Row).






End event_properties.


(** C7, at the input on which the code departs from it: a statement that
    follows a comment line in its semicolon-separated piece is dropped with
    the comment, so [run_cypher_file] reads this script and sends nothing;
    without the comment line the same statement is sent. *)
Theorem commented_statement_is_dropped :
  let statement := "CREATE CONSTRAINT customer_id IF NOT EXISTS FOR (c:Customer) REQUIRE c.id IS UNIQUE" in
  let content := "// Constraints" +:+ Str.LF +:+ statement +:+ ";" +:+ Str.LF in
  cypher_statements content = []
  ∧ cypher_statements (statement +:+ ";" +:+ Str.LF) = [statement]
  ∧ (run_cypher_file 0 (Sample.world_with_script content)).1 = Ok tt
  ∧ w_trace (run_cypher_file 0 (Sample.world_with_script content)).2 = [ok_event ReadFile]
  ∧ w_trace (run_cypher_file 0 (Sample.world_with_script (statement +:+ ";" +:+ Str.LF))).2
    = [ok_event ReadFile; ok_event (Run 0 (Script statement) ∅)].
Proof. vm_compute. done. Qed.

Section referential_gap.
Implicit Types (w : World) (g : Graph) (row : Row).

Lemma list_bind_nil_r {A B} (l : list A) : l ≫= (fun _ : A => ([] : list B)) = [].
Proof. induction l as [|x l IH]; [done|]. simpl. exact IH. Qed.

Lemma contains_rels_gap g row :
  Cypher.match_nodes g "Order" (Cypher.field row "order_id") = []
  ∨ Cypher.match_nodes g "Product" (Cypher.field row "product_id") = [] →
  Cypher.contains_rels g row = [].
Proof.
  unfold Cypher.contains_rels. intros [-> | ->]; [done|].
  apply list_bind_nil_r.
Qed.

Lemma exec_order_items script g (rows : list Row) :
  Cypher.exec script CreateOrderItems {[ "batch" := PList rows ]} g
  = Ok (Cypher.add_rels g (concat (map (Cypher.contains_rels g) rows))).
Proof.
  unfold Cypher.exec, Cypher.batch_param. by rewrite lookup_singleton_eq.
Qed.

(** C8. An order_items row whose order_id or product_id matches no node
    contributes no CONTAINS relationship; the batch that carries it has the
    effect of the batch without it, the statement does not raise, and
    [run_cypher] returns, so that the run goes on. *)
Theorem order_item_gap_skipped driver w (before after : list Row) row :
  Cypher.match_nodes (w_graph w) "Order" (Cypher.field row "order_id") = []
  ∨ Cypher.match_nodes (w_graph w) "Product" (Cypher.field row "product_id") = [] →
  w_fault w (length (w_trace w)) = None →
  let g := w_graph w in
  let batch rows : Params := {[ "batch" := PList rows ]} in
  Cypher.contains_rels g row = []
  ∧ Cypher.exec (w_script w) CreateOrderItems (batch (before ++ row :: after)) g
    = Cypher.exec (w_script w) CreateOrderItems (batch (before ++ after)) g
  ∧ ∃ w', run_cypher driver CreateOrderItems (batch (before ++ row :: after)) w = (Ok tt, w')
          ∧ nodes (w_graph w') = nodes g
          ∧ rels (w_graph w')
            = rels g ++ concat (map (Cypher.contains_rels g) (before ++ after)).
Proof.
  intros Hgap Hfault g batch. unfold batch.
  pose proof (contains_rels_gap _ _ Hgap) as Hnone. fold g in Hnone.
  assert (Hsame : concat (map (Cypher.contains_rels g) (before ++ row :: after))
                  = concat (map (Cypher.contains_rels g) (before ++ after))).
  { rewrite !map_app, !concat_app. simpl. by rewrite Hnone. }
  split; [done|]. split; [by rewrite !exec_order_items, Hsame|].
  unfold run_cypher, mbind, M_bind, session_run. rewrite Hfault.
  fold g. rewrite exec_order_items, Hsame. eexists. split; [done|]. done.
Qed.

End referential_gap.

(** In the sample shop the order item of the missing order 7 leaves no
    relationship and the run returns. *)
Lemma order_item_gap_skipped_witness :
  let w := (etl_body 0 0 Sample.world).2 in
  let row := Sample.order_item 7 1 1 in
  (Cypher.match_nodes (w_graph w) "Order" (Cypher.field row "order_id") = []
   ∨ Cypher.match_nodes (w_graph w) "Product" (Cypher.field row "product_id") = [])
  ∧ w_fault w (length (w_trace w)) = None
  ∧ Cypher.contains_rels (w_graph w) row = []
  ∧ ∃ w', run_cypher 0 CreateOrderItems {[ "batch" := PList ([] ++ row :: []) ]} w = (Ok tt, w')
          ∧ nodes (w_graph w') = nodes (w_graph w)
          ∧ rels (w_graph w')
            = rels (w_graph w) ++ concat (map (Cypher.contains_rels (w_graph w)) ([] ++ [])).
Proof.
  intros w row.
  assert (H1 : Cypher.match_nodes (w_graph w) "Order" (Cypher.field row "order_id") = []
               ∨ Cypher.match_nodes (w_graph w) "Product" (Cypher.field row "product_id") = [])
    by (left; vm_compute; reflexivity).
  assert (H2 : w_fault w (length (w_trace w)) = None) by (vm_compute; reflexivity).
  split; [exact H1|]. split; [exact H2|].
  destruct (order_item_gap_skipped 0 w [] [] row H1 H2) as (Hn & _ & Hrun).
  split; [exact Hn|exact Hrun].
Defined.

(** ** Release of the two connections *)

Section release.
Implicit Types (w : World).



End release.


(** A run in which the detach-delete statement (call 9) raises still ends
    with the two releases. *)
Example etl_releases_after_failed_reset :
  let w := Sample.world_failing_at 9 (ServiceError "Connection reset") in
  (etl w).1 = Raise (ServiceError "Connection reset")
  ∧ drop 10 (map ev_call (w_trace (etl w).2)) = [PgClose 5; DriverClose 6].
Proof. vm_compute. done. Qed.


(** ** Error handling of the read endpoints *)

Section endpoints.
Implicit Types (w : World).

Lemma try_except_raise {A} (body : M A) (handler : Exn → M A) w e w1 :
  body w = (Raise e, w1) → try_except body handler w = handler e w1.
Proof. unfold try_except. by intros ->. Qed.

Lemma driver_open_raises w e :
  w_fault w (length (w_trace w)) = Some e →
  driver_open w = (Raise e, log DriverOpen (Some e) w).
Proof. unfold driver_open, fallible. by intros ->. Qed.

Lemma driver_open_returns w :
  w_fault w (length (w_trace w)) = None →
  driver_open w = (Ok (length (w_trace w)), log DriverOpen None w).
Proof. unfold driver_open, fallible. by intros ->. Qed.

Lemma session_run_raises driver q ps w e :
  w_fault w (length (w_trace w)) = Some e →
  session_run driver q ps w = (Raise e, log (Run driver q ps) (Some e) w).
Proof. unfold session_run. by intros ->. Qed.

(** When the store is down, a body that opens a driver and then runs a
    statement raises the store's exception. *)
Lemma first_statement_raises {A B} (step : nat → M A) (rest : nat → A → M B) w e :
  (∀ driver w1 e, w_fault w1 (length (w_trace w1)) = Some e →
                  ∃ w2, step driver w1 = (Raise e, w2)) →
  store_down w e →
  ∃ w', (driver ← driver_open; x ← step driver; rest driver x) w = (Raise e, w').
Proof.
  intros Hstep [Hf | [Hok Hf]].
  - eexists. apply bind_raise. by apply driver_open_raises.
  - rewrite (bind_ok _ _ _ _ _ (driver_open_returns w Hok)).
    destruct (Hstep (length (w_trace w)) (log DriverOpen None w) e) as [w2 H2].
    { simpl. rewrite length_app. simpl. by rewrite Nat.add_1_r. }
    exists w2. by apply bind_raise.
Qed.

Lemma health_check_returns w :
  ∃ body w', health_check w = (Ok (Returned body), w').
Proof.
  unfold health_check, try_except.
  match goal with |- context [match ?m w with _ => _ end] => destruct (m w) as [[resp|e] w1] eqn:E end.
  - apply bind_ok_inv in E as (driver & w2 & _ & E).
    apply bind_ok_inv in E as (result & w3 & _ & E).
    apply bind_ok_inv in E as (record & w4 & _ & E).
    apply bind_ok_inv in E as ([] & w5 & _ & E).
    apply ret_ok_inv in E as [-> ->]. eauto.
  - eauto.
Qed.

Lemma health_check_down w e :
  store_down w e →
  ∃ w', health_check w
        = (Ok (Returned (JObj [("ok", JBool false); ("error", JStr (exn_str e))])), w').
Proof.
  intros Hdown. unfold health_check.
  destruct (first_statement_raises
              (fun driver => session_run driver Return1AsTest ∅)
              (fun driver result =>
                 _ ← lift (single result);
                 driver_close driver ;;
                 mret (Returned (JObj [("ok", JBool true)])))
              w e) as [w1 H1]; [|done|].
  { intros driver w1 e1 Hf. eexists. by apply session_run_raises. }
  exists w1. by rewrite (try_except_raise _ _ _ _ _ H1).
Qed.

Lemma graph_stats_down w e :
  store_down w e →
  ∃ w', graph_stats w = (Ok (HTTPException 500 ("Database error: " +:+ exn_str e)), w').
Proof.
  intros Hdown. unfold graph_stats.
  match goal with
  | |- context [try_except (driver_open ≫= ?k) _] =>
      destruct (first_statement_raises
                  (fun driver => count_query driver (CountNodes "Customer"))
                  (fun driver customers =>
                     products ← count_query driver (CountNodes "Product");
                     orders ← count_query driver (CountNodes "Order");
                     categories ← count_query driver (CountNodes "Category");
                     total_rels ← count_query driver CountRels;
                     driver_close driver ;;
                     total ← lift (cp ← py_add customers products;
                                   cpo ← py_add cp orders; py_add cpo categories);
                     mret (Returned (JObj
                       [("nodes", JObj [("customers", JVal customers);
                                        ("products", JVal products);
                                        ("orders", JVal orders);
                                        ("categories", JVal categories);
                                        ("total", JVal total)]);
                        ("relationships", JObj [("total", JVal total_rels)])])))
                  w e) as [w1 H1]; [|done|]
  end.
  { intros driver w1 e1 Hf. eexists. unfold count_query.
    apply bind_raise. by apply session_run_raises. }
  exists w1. by rewrite (try_except_raise _ _ _ _ _ H1).
Qed.

Lemma read_endpoint_down name ps item wrap w e :
  store_down w e →
  ∃ w', read_endpoint name ps item wrap w
        = (Ok (HTTPException 500 ("Database error: " +:+ exn_str e)), w').
Proof.
  intros Hdown. unfold read_endpoint.
  destruct (first_statement_raises
              (fun driver => session_run driver (ReadQuery name) ps)
              (fun driver result =>
                 items ← lift (mapM item result);
                 driver_close driver ;;
                 mret (Returned (wrap items)))
              w e) as [w1 H1]; [|done|].
  { intros driver w1 e1 Hf. eexists. by apply session_run_raises. }
  exists w1. by rewrite (try_except_raise _ _ _ _ _ H1).
Qed.

(** C10. [/health] never raises: it always returns a body, and when the
    graph store cannot be reached the body is [{"ok": false, "error": str(e)}];
    on the same failure every other read endpoint answers with an HTTP 500
    error whose detail is [Database error: str(e)]. *)
Theorem health_reports_others_raise w e (id : string) (limit : Z) :
  store_down w e →
  (∀ w0, ∃ body w', health_check w0 = (Ok (Returned body), w'))
  ∧ (∃ w', health_check w
           = (Ok (Returned (JObj [("ok", JBool false); ("error", JStr (exn_str e))])), w'))
  ∧ Forall (fun endpoint : M Response =>
              ∃ w', endpoint w
                    = (Ok (HTTPException 500 ("Database error: " +:+ exn_str e)), w'))
           (other_read_endpoints id limit).
Proof.
  intros Hdown. split; [apply health_check_returns|].
  split; [by apply health_check_down|].
  unfold other_read_endpoints.
  unfold collaborative_recommendations, similar_product_recommendations,
    category_recommendations, trending_recommendations, list_customers, list_products.
  repeat (apply Forall_cons; split); try apply Forall_nil.
  all: first [done | by apply graph_stats_down | by apply read_endpoint_down].
Qed.

End endpoints.

Lemma health_reports_others_raise_witness :
  let e := ServiceError "Couldn't connect to neo4j:7687" in
  let w := Sample.world_failing_at 1 e in
  store_down w e
  ∧ (∃ w', health_check w
           = (Ok (Returned (JObj [("ok", JBool false); ("error", JStr (exn_str e))])), w'))
  ∧ Forall (fun endpoint : M Response =>
              ∃ w', endpoint w
                    = (Ok (HTTPException 500 ("Database error: " +:+ exn_str e)), w'))
           (other_read_endpoints "C1" 5).
Proof.
  intros e w.
  assert (H : store_down w e) by (right; split; vm_compute; reflexivity).
  split; [exact H|].
  destruct (health_reports_others_raise w e "C1" 5 H) as (_ & Hh & Ho).
  split; [exact Hh|exact Ho].
Defined.

(** ** Timestamps handed to the graph store *)

Section timestamps.
Implicit Types (s : string) (t : Timestamp).

Lemma append_cons (c : ascii) s1 s2 : String c s1 +:+ s2 = String c (s1 +:+ s2).
Proof. reflexivity. Qed.

Lemma append_empty_r s : s +:+ "" = s.
Proof. induction s as [|c s IH]; [done|]. by rewrite append_cons, IH. Qed.

Lemma chars_app s1 s2 : Str.chars (s1 +:+ s2) = Str.chars s1 ++ Str.chars s2.
Proof. induction s1 as [|c s1 IH]; [done|]. rewrite append_cons. simpl. by rewrite IH. Qed.

Lemma plus_free_app s1 s2 : plus_free s1 → plus_free s2 → plus_free (s1 +:+ s2).
Proof. unfold plus_free. rewrite chars_app. apply Forall_app_2. Qed.

Lemma plus_free_zeros (k : nat) : plus_free (Str.zeros k).
Proof. induction k as [|k IH]; [constructor|]. by constructor. Qed.

Lemma plus_free_uint (u : Decimal.uint) : plus_free (NilEmpty.string_of_uint u).
Proof. induction u; simpl; by constructor. Qed.

Lemma plus_free_zpad (width n : nat) : plus_free (Str.zpad width n).
Proof.
  unfold Str.zpad. apply plus_free_app; [apply plus_free_zeros|].
  unfold NilZero.string_of_uint.
  destruct (Nat.to_uint n) eqn:E; try (rewrite <- E; apply plus_free_uint).
  by repeat constructor.
Qed.

Lemma plus_free_isoformat_local sep t : plus_free sep → plus_free (isoformat_local sep t).
Proof.
  intros Hsep. unfold isoformat_local.
  repeat (apply plus_free_app;
          [first [apply plus_free_zpad | done | by repeat constructor]|]).
  destruct (microsecond t =? 0)%nat; [constructor|].
  apply plus_free_app; [by repeat constructor|apply plus_free_zpad].
Qed.

(** [replace] passes over text in which the first character of [old] does
    not occur. *)
Lemma replace_passes_plus_free s rest old new :
  plus_free s →
  Str.replace_from 0 (String "+" old) new (s +:+ rest)
  = s +:+ Str.replace_from 0 (String "+" old) new rest.
Proof.
  intros Hs. induction s as [|c s IH]; [done|].
  apply Forall_cons in Hs as [Hc Hs].
  rewrite append_cons. cbn [Str.replace_from Str.startswith].
  destruct (decide (c = "+"%char)); [done|]. by rewrite IH, append_cons.
Qed.

Lemma replace_plus_free s old new :
  plus_free s → Str.replace s (String "+" old) new = s.
Proof.
  intros Hs. unfold Str.replace.
  rewrite <- (append_empty_r s) at 1.
  rewrite replace_passes_plus_free by done. cbn. apply append_empty_r.
Qed.

(** The hour and minute digits of an offset spell 00:00 only for the zero
    offset. *)
Lemma offset_digits_nonzero (hh mm : nat) :
  (hh < 24)%nat → (mm < 60)%nat → (hh ≠ 0 ∨ mm ≠ 0)%nat →
  Str.startswith (Str.zpad 2 hh +:+ ":" +:+ Str.zpad 2 mm +:+ "") "00:00" = false.
Proof.
  intros Hh Hm Hnz.
  assert (Hall : forallb (fun h => forallb (fun m =>
             ((h =? 0)%nat && (m =? 0)%nat)
             || negb (Str.startswith (Str.zpad 2 h +:+ ":" +:+ Str.zpad 2 m +:+ "") "00:00"))
             (seq 0 60)) (seq 0 24) = true) by (vm_compute; reflexivity).
  rewrite List.forallb_forall in Hall.
  specialize (Hall hh ltac:(apply List.in_seq; lia)).
  rewrite List.forallb_forall in Hall.
  specialize (Hall mm ltac:(apply List.in_seq; lia)).
  apply orb_true_iff in Hall as [Hz|Hneg].
  - apply andb_true_iff in Hz as [H1%Nat.eqb_eq H2%Nat.eqb_eq]. lia.
  - by apply negb_true_iff in Hneg.
Qed.

Lemma format_offset_whole_minutes (off : Z) :
  off mod 60 = 0 →
  format_offset off
  = (if off <? 0 then "-" else "+")
    +:+ Str.zpad 2 (Z.to_nat (Z.abs off) / 3600)
    +:+ ":" +:+ Str.zpad 2 (Z.to_nat (Z.abs off) mod 3600 / 60) +:+ "".
Proof.
  intros Hm. unfold format_offset.
  assert (Hss : (Z.to_nat (Z.abs off) mod 60 = 0)%nat).
  { apply Nat2Z.inj. rewrite Nat2Z.inj_mod, Z2Nat.id by lia.
    destruct (Z.abs_spec off) as [[_ ->]|[_ ->]]; [done|].
    change (Z.of_nat 60) with 60. change (Z.of_nat 0) with 0.
    apply Z.mod_divide; [lia|]. apply Z.divide_opp_r. by apply Z.mod_divide. }
  by rewrite Hss.
Qed.

(** C2, as the code has it. The value handed to the graph store is the
    ISO-8601 text of the timestamp with +00:00 replaced by Z and nothing
    else changed: with no offset it is the bare date and time, with a zero
    offset it is that text followed by Z, and with a non-zero offset of
    whole minutes it is that text followed by the numeric offset. *)
Theorem ts_iso_by_offset t (off : Z) :
  -86400 < off < 86400 →
  off mod 60 = 0 →
  ts_iso (with_offset None t) = isoformat_local "T" t
  ∧ ts_iso (with_offset (Some 0) t) = isoformat_local "T" t +:+ "Z"
  ∧ (off ≠ 0 →
     ts_iso (with_offset (Some off) t) = isoformat_local "T" t +:+ format_offset off).
Proof.
  intros Hrange Hmin.
  assert (Hlocal : plus_free (isoformat_local "T" t))
    by (apply plus_free_isoformat_local; by repeat constructor).
  unfold ts_iso, isoformat, isoformat_sep.
  change (isoformat_local "T" (with_offset ?o t)) with (isoformat_local "T" t).
  cbn [utcoffset with_offset].
  split; [|split].
  - rewrite append_empty_r. by apply replace_plus_free.
  - unfold Str.replace. by rewrite replace_passes_plus_free.
  - intros Hnz. unfold Str.replace. rewrite replace_passes_plus_free by done.
    f_equal. rewrite (format_offset_whole_minutes off Hmin).
    destruct (Z.ltb_spec off 0) as [Hneg|Hpos].
    + apply (replace_plus_free _ "00:00" "Z").
      apply plus_free_app; [by repeat constructor|].
      apply plus_free_app; [apply plus_free_zpad|].
      apply plus_free_app; [by repeat constructor|].
      apply plus_free_app; [apply plus_free_zpad|constructor].
    + set (hh := (Z.to_nat (Z.abs off) / 3600)%nat).
      set (mm := (Z.to_nat (Z.abs off) mod 3600 / 60)%nat).
      assert (Hdig : Str.startswith (Str.zpad 2 hh +:+ ":" +:+ Str.zpad 2 mm +:+ "") "00:00"
                     = false).
      { apply offset_digits_nonzero.
        - unfold hh. apply Nat.Div0.div_lt_upper_bound. lia.
        - unfold mm. apply Nat.Div0.div_lt_upper_bound.
          pose proof (Nat.mod_upper_bound (Z.to_nat (Z.abs off)) 3600). lia.
        - unfold hh, mm.
          destruct (decide (Z.to_nat (Z.abs off) / 3600 = 0)%nat) as [H0|]; [|by left].
          right. apply Nat.div_small_iff in H0; [|lia].
          rewrite (Nat.mod_small _ _ H0). intros Hq.
          apply Nat.div_small_iff in Hq; [|lia].
          assert (Hlt : 0 <= off < 60) by lia.
          rewrite Z.mod_small in Hmin by done. lia. }
      change ("+" +:+ ?x) with (String "+" x).
      cbn [Str.replace_from Str.startswith].
      destruct (decide ("+"%char = "+"%char)); [|done].
      rewrite Hdig. f_equal.
      apply (replace_plus_free _ "00:00" "Z").
      apply plus_free_app; [apply plus_free_zpad|].
      apply plus_free_app; [by repeat constructor|].
      apply plus_free_app; [apply plus_free_zpad|constructor].
Qed.

End timestamps.

Lemma ts_iso_by_offset_witness :
  -86400 < -19800 < 86400 ∧ -19800 mod 60 = 0
  ∧ ts_iso (with_offset None Sample.noon_utc) = isoformat_local "T" Sample.noon_utc
  ∧ ts_iso (with_offset (Some 0) Sample.noon_utc) = isoformat_local "T" Sample.noon_utc +:+ "Z"
  ∧ (-19800 ≠ 0 →
     ts_iso (with_offset (Some (-19800)) Sample.noon_utc)
     = isoformat_local "T" Sample.noon_utc +:+ format_offset (-19800)).
Proof.
  split; [lia|]. split; [reflexivity|].
  exact (ts_iso_by_offset Sample.noon_utc (-19800) ltac:(lia) ltac:(reflexivity)).
Defined.

(** C2 as stated fails: a zoned timestamp two hours east of UTC keeps its
    numeric offset and gets no Z, and a timestamp without offset gets no Z
    either, so it does not normalize to the text of the same reading at
    +00:00. *)
Lemma ts_iso_not_always_utc :
  ts_iso Sample.noon_plus2 = "2024-01-15T12:00:00+02:00"
  ∧ Str.endswith (ts_iso Sample.noon_plus2) "Z" = false
  ∧ ts_iso Sample.noon_utc = "2024-01-15T12:00:00Z"
  ∧ ts_iso Sample.noon_naive = "2024-01-15T12:00:00"
  ∧ Str.endswith (ts_iso Sample.noon_naive) "Z" = false
  ∧ ts_iso Sample.noon_naive ≠ ts_iso Sample.noon_utc.
Proof.
  assert (H1 : ts_iso Sample.noon_utc = "2024-01-15T12:00:00Z") by (vm_compute; reflexivity).
  assert (H2 : ts_iso Sample.noon_naive = "2024-01-15T12:00:00") by (vm_compute; reflexivity).
  split; [vm_compute; reflexivity|]. split; [vm_compute; reflexivity|].
  split; [exact H1|]. split; [exact H2|]. split; [vm_compute; reflexivity|].
  rewrite H1, H2. discriminate.
Qed.

(** * Further properties *)

(** ** The readiness loops *)

Section readiness.
Implicit Types (w : World).

Lemma range_upto (n : Z) : Py.range 0 n 1 = Ok (map Z.of_nat (seq 0 (Z.to_nat n))).
Proof.
  unfold Py.range, Py.range_length. simpl.
  destruct (Z.ltb_spec 0 n).
  - rewrite Z.div_1_r. replace (Z.to_nat (1 + (n - 1 - 0))) with (Z.to_nat n) by lia.
    f_equal. apply map_ext. intros k. lia.
  - replace (Z.to_nat n) with 0%nat by lia. done.
Qed.

Lemma wait_for_postgres_unfold max_retries delay w :
  wait_for_postgres max_retries delay w
  = wait_for_postgres_loop max_retries delay
      (map Z.of_nat (seq 0 (Z.to_nat max_retries))) w.
Proof. unfold wait_for_postgres. by rewrite range_upto. Qed.

Lemma wait_for_neo4j_unfold max_retries delay w :
  wait_for_neo4j max_retries delay w
  = wait_for_neo4j_loop max_retries delay
      (map Z.of_nat (seq 0 (Z.to_nat max_retries))) w.
Proof. unfold wait_for_neo4j. by rewrite range_upto. Qed.

(** One pass of the PostgreSQL loop, by the answer to its connection. *)
Lemma wait_for_postgres_attempt_cases max_retries delay i w :
  wait_for_postgres_attempt max_retries delay i w =
  match w_fault w (length (w_trace w)) with
  | None => (Ok true, log (PgClose (length (w_trace w))) None (log PgConnect None w))
  | Some (OperationalError msg) =>
      if i <? max_retries - 1
      then (Ok false, log (Sleep delay) None (log PgConnect (Some (OperationalError msg)) w))
      else (Raise (PlainException "PostgreSQL failed to become ready"),
            log PgConnect (Some (OperationalError msg)) w)
  | Some e => (Raise e, log PgConnect (Some e) w)
  end.
Proof.
  unfold wait_for_postgres_attempt, try_except, mbind, M_bind, pg_connect, fallible.
  destruct (w_fault w (length (w_trace w))) as [[]|]; try reflexivity.
  by destruct (i <? max_retries - 1).
Qed.


Lemma calls_of_app P evs1 evs2 :
  calls_of P (evs1 ++ evs2) = (calls_of P evs1 + calls_of P evs2)%nat.
Proof. unfold calls_of. by rewrite List.filter_app, length_app. Qed.

Lemma after_log2 w c1 r1 c2 r2 :
  after w [ {| ev_call := c1; ev_raised := r1 |}; {| ev_call := c2; ev_raised := r2 |} ]
        (w_graph w) (log c2 r2 (log c1 r1 w)).
Proof. split; [|by repeat split]. simpl. by rewrite <- app_assoc. Qed.

Lemma after_log3 w c1 r1 c2 r2 c3 r3 :
  after w [ {| ev_call := c1; ev_raised := r1 |}; {| ev_call := c2; ev_raised := r2 |};
            {| ev_call := c3; ev_raised := r3 |} ]
        (w_graph w) (log c3 r3 (log c2 r2 (log c1 r1 w))).
Proof. split; [|by repeat split]. simpl. by rewrite <- !app_assoc. Qed.

Lemma after_graph_trans w evs1 w1 evs2 w2 :
  after w evs1 (w_graph w) w1 → after w1 evs2 (w_graph w1) w2 →
  after w (evs1 ++ evs2) (w_graph w) w2.
Proof.
  intros H1 H2. pose proof H1 as (_ & Hg & _). rewrite <- Hg.
  exact (after_trans _ _ _ _ _ _ _ H1 H2).
Qed.

Lemma count_below (b : Z) (a n : nat) :
  Z.of_nat (length (List.filter (fun i => i <? b) (map Z.of_nat (seq a n))))
  <= Z.max 0 (b - Z.of_nat a).
Proof.
  revert a. induction n as [|n IH]; intros a; simpl; [lia|].
  specialize (IH (S a)). destruct (Z.ltb_spec (Z.of_nat a) b); simpl; lia.
Qed.

Lemma wait_for_postgres_loop_bounded max_retries delay attempts w r w' :
  wait_for_postgres_loop max_retries delay attempts w = (r, w') →
  ∃ evs, after w evs (w_graph w) w'
    ∧ Forall (fun ev => pg_probe_call delay (ev_call ev)) evs
    ∧ (calls_of is_pg_connect evs ≤ length attempts)%nat
    ∧ (calls_of is_sleep evs
       ≤ length (List.filter (fun i => (i <? max_retries - 1)%Z) attempts))%nat.
Proof.
  revert w. induction attempts as [|i rest IH]; intros w.
  - intros [= <- <-]. exists []. split; [apply after_refl|]. by repeat split.
  - cbn [wait_for_postgres_loop]. unfold mbind at 1, M_bind at 1.
    rewrite wait_for_postgres_attempt_cases.
    assert (Hone : ∀ e, ∃ evs,
               after w evs (w_graph w) (log PgConnect (Some e) w)
               ∧ Forall (fun ev => pg_probe_call delay (ev_call ev)) evs
               ∧ (calls_of is_pg_connect evs ≤ length (i :: rest))%nat
               ∧ (calls_of is_sleep evs
                  ≤ length (List.filter (fun i => (i <? max_retries - 1)%Z) (i :: rest)))%nat).
    { intros e. eexists. split; [apply after_log|].
      split; [apply Forall_singleton; by left|]. cbn. lia. }
    destruct (w_fault w (length (w_trace w))) as [e|].
    + destruct e as [msg|key|msg|msg|msg|msg|msg];
        try (intros [= <- <-]; apply Hone).
      cbn [List.filter length]. destruct (i <? max_retries - 1).
      * intros (evs & Ha & Hp & Hc & Hs)%IH.
        exists ([ {| ev_call := PgConnect; ev_raised := Some (OperationalError msg) |};
                  ok_event (Sleep delay) ] ++ evs).
        split; [exact (after_graph_trans _ _ _ _ _ (after_log2 _ _ _ _ _) Ha)|].
        split; [apply Forall_app_2; [|done]|].
        { apply Forall_cons; split; [by left|].
          apply Forall_cons; split; [by right; right|]. constructor. }
        rewrite !calls_of_app. cbn. lia.
      * intros [= <- <-]. eexists. split; [apply after_log|].
        split; [apply Forall_singleton; by left|]. cbn. lia.
    + intros [= <- <-]. eexists. split; [apply after_log2|].
      split; [|cbn; lia].
      apply Forall_cons; split; [by left|].
      apply Forall_cons; split; [right; left; by eexists|]. constructor.
Qed.

(** X1. With no attempt allowed (max_retries <= 0) both readiness loops
    return at once, without a single call: the store is taken to be ready
    unchecked. *)
Theorem wait_without_attempts max_retries delay w :
  max_retries <= 0 →
  wait_for_postgres max_retries delay w = (Ok tt, w)
  ∧ wait_for_neo4j max_retries delay w = (Ok tt, w).
Proof.
  intros Hm. rewrite wait_for_postgres_unfold, wait_for_neo4j_unfold.
  replace (Z.to_nat max_retries) with 0%nat by lia. done.
Qed.

(** X2. Whatever its outcome, [wait_for_postgres] only connects, closes and
    sleeps [delay] seconds; it connects at most max_retries times, sleeps at
    most max_retries - 1 times, and leaves the graph as it was. *)
Theorem wait_for_postgres_bounded max_retries delay w r w' :
  wait_for_postgres max_retries delay w = (r, w') →
  ∃ evs, after w evs (w_graph w) w'
    ∧ Forall (fun ev => pg_probe_call delay (ev_call ev)) evs
    ∧ Z.of_nat (calls_of is_pg_connect evs) <= Z.max 0 max_retries
    ∧ Z.of_nat (calls_of is_sleep evs) <= Z.max 0 (max_retries - 1).
Proof.
  rewrite wait_for_postgres_unfold.
  intros (evs & Ha & Hp & Hc & Hs)%wait_for_postgres_loop_bounded.
  exists evs. split; [done|]. split; [done|].
  rewrite length_map, length_seq in Hc.
  pose proof (count_below (max_retries - 1) 0 (Z.to_nat max_retries)). lia.
Qed.



(** X4. [wait_for_postgres] retries on OperationalError only: any other
    exception of the first connection attempt leaves at once, unchanged,
    without a sleep or a retry. *)
Theorem wait_for_postgres_other_error max_retries delay w e :
  0 < max_retries →
  w_fault w (length (w_trace w)) = Some e →
  (∀ msg, e ≠ OperationalError msg) →
  wait_for_postgres max_retries delay w = (Raise e, log PgConnect (Some e) w).
Proof.
  intros Hm Hf He. rewrite wait_for_postgres_unfold.
  destruct (Z.to_nat max_retries) as [|j] eqn:En; [lia|].
  cbn [seq map wait_for_postgres_loop]. unfold mbind at 1, M_bind at 1.
  rewrite wait_for_postgres_attempt_cases, Hf.
  destruct e; try reflexivity. by destruct (He msg).
Qed.







End readiness.

(** ** Composition of computations, whatever their outcome *)

Section steps_rules.
Context (P : Call → Prop) (G : Graph → Graph → Prop).
Context (G_refl : ∀ g, G g g) (G_trans : ∀ g1 g2 g3, G g1 g2 → G g2 g3 → G g1 g3).

Lemma steps_here {A} (r : Res A) : steps P G (fun w => (r, w)).
Proof.
  intros w r' w' [= <- <-]. exists []. rewrite app_nil_r.
  split; [done|]. split; [constructor|]. split; [apply G_refl|apply same_env_refl].
Qed.

Lemma steps_ret {A} (a : A) : steps P G (mret a : M A).
Proof. apply (steps_here (Ok a)). Qed.

Lemma steps_raise {A} (e : Exn) : steps P G (raise e : M A).
Proof. apply (steps_here (Raise e)). Qed.

Lemma steps_lift {A} (r : Res A) : steps P G (lift r).
Proof. apply (steps_here r). Qed.

Lemma steps_seq {A B} (m : M A) (k : Res A → M B) :
  steps P G m → (∀ r, steps P G (k r)) →
  steps P G (fun w => let (r, w1) := m w in k r w1).
Proof.
  intros Hm Hk w r w'. destruct (m w) as [r1 w1] eqn:Em. intros Hrun.
  destruct (Hm _ _ _ Em) as (evs1 & Ht1 & Hp1 & Hg1 & He1).
  destruct (Hk r1 _ _ _ Hrun) as (evs2 & Ht2 & Hp2 & Hg2 & He2).
  exists (evs1 ++ evs2). split; [by rewrite Ht2, Ht1, app_assoc|].
  split; [by apply Forall_app_2|]. split; [by eapply G_trans|].
  by eapply same_env_trans.
Qed.

Lemma steps_bind {A B} (m : M A) (f : A → M B) :
  steps P G m → (∀ a, steps P G (f a)) → steps P G (m ≫= f).
Proof.
  intros Hm Hf.
  apply (steps_seq m (fun r w1 => match r with
                                  | Ok a => f a w1
                                  | Raise e => (Raise e, w1)
                                  end) Hm).
  intros [a|e]; [apply Hf|apply steps_here].
Qed.

Lemma steps_try_except {A} (body : M A) (handler : Exn → M A) :
  steps P G body → (∀ e, steps P G (handler e)) → steps P G (try_except body handler).
Proof.
  intros Hm Hf.
  apply (steps_seq body (fun r w1 => match r with
                                     | Ok a => (Ok a, w1)
                                     | Raise e => handler e w1
                                     end) Hm).
  intros [a|e]; [apply steps_here|apply Hf].
Qed.

Lemma steps_try_finally {A} (body : M A) (cleanup : M unit) :
  steps P G body → steps P G cleanup → steps P G (try_finally body cleanup).
Proof.
  intros Hm Hc.
  apply (steps_seq body
           (fun r w1 => match cleanup w1 with
                        | (Ok _, w2) => (r, w2)
                        | (Raise e, w2) => (Raise e, w2)
                        end) Hm).
  intros r.
  apply (steps_seq cleanup
           (fun rc w2 => match rc with Ok _ => (r, w2) | Raise e => (Raise e, w2) end)
           Hc).
  intros [[]|e]; apply steps_here.
Qed.

Lemma steps_for_each {A} (xs : list A) (body : A → M unit) :
  (∀ x, steps P G (body x)) → steps P G (for_each xs body).
Proof.
  intros Hb. induction xs as [|x xs IH]; [apply steps_ret|].
  apply steps_bind; [apply Hb|]. intros _. apply IH.
Qed.

Lemma steps_fallible {A} (c : Call) (result : World → A) :
  P c → steps P G (fallible c result).
Proof.
  intros Hc w r w'. unfold fallible.
  destruct (w_fault w (length (w_trace w))); intros [= <- <-];
    (eexists [_]; split; [done|]; split; [by apply Forall_singleton|];
     split; [apply G_refl|by repeat split]).
Qed.

Lemma steps_infallible (c : Call) : P c → steps P G (infallible c).
Proof.
  intros Hc w r w' [= <- <-]. eexists [_]. split; [done|].
  split; [by apply Forall_singleton|]. split; [apply G_refl|by repeat split].
Qed.

Lemma steps_session_run driver q ps :
  P (Run driver q ps) →
  (∀ script g g', Cypher.exec script q ps g = Ok g' → G g g') →
  steps P G (session_run driver q ps).
Proof.
  intros Hc Hq w r w'. unfold session_run.
  destruct (w_fault w (length (w_trace w))).
  - intros [= <- <-]. eexists [_]. split; [done|].
    split; [by apply Forall_singleton|]. split; [apply G_refl|by repeat split].
  - destruct (Cypher.exec (w_script w) q ps (w_graph w)) as [g'|e] eqn:E;
      intros [= <- <-]; (eexists [_]; split; [done|];
      split; [by apply Forall_singleton|]).
    + split; [by eapply Hq|by repeat split].
    + split; [apply G_refl|by repeat split].
Qed.

Lemma steps_run_cypher driver q ps :
  P (Run driver q ps) →
  (∀ script g g', Cypher.exec script q ps g = Ok g' → G g g') →
  steps P G (run_cypher driver q ps).
Proof.
  intros Hc Hq. apply steps_bind; [by apply steps_session_run|].
  intros _. apply steps_ret.
Qed.

End steps_rules.

(** ** The endpoints of main.py *)

Section api.
Implicit Types (w : World).

Lemma answered_next w n :
  answered w (S n) →
  w_fault w (length (w_trace w)) = None ∧ ∀ c, answered (log c None w) n.
Proof.
  intros H. split.
  - rewrite <- (Nat.add_0_r (length _)). apply H. lia.
  - intros c j Hj. cbn [log w_trace w_fault]. rewrite length_app. cbn [length].
    rewrite <- Nat.add_assoc. apply H. simpl. lia.
Qed.

Lemma session_run_returns driver q ps w g' :
  w_fault w (length (w_trace w)) = None →
  Cypher.exec (w_script w) q ps (w_graph w) = Ok g' →
  session_run driver q ps w
  = (Ok (Cypher.answer (w_read w) q ps (w_graph w)),
     set_graph g' (log (Run driver q ps) None w)).
Proof. unfold session_run. by intros -> ->. Qed.

Lemma count_query_returns driver q w :
  is_count_stmt q = true →
  w_fault w (length (w_trace w)) = None →
  count_query driver q w
  = (Ok (VInt (count_of (w_graph w) q)), log (Run driver q ∅) None w).
Proof.
  intros Hq Hf. unfold count_query.
  rewrite (bind_ok _ _ _ _ _ (session_run_returns driver q ∅ w (w_graph w) Hf
                                 ltac:(by destruct q))).
  destruct q; try discriminate Hq; reflexivity.
Qed.

Ltac side := first [done | congruence | by intros ].

Lemma steps_count_query P driver q :
  P (Run driver q ∅) → is_count_stmt q = true → steps P eq (count_query driver q).
Proof.
  intros Hc Hq. apply steps_bind; [side.. | | intros; apply steps_lift; side].
  apply steps_session_run; [side.. |].
  intros script g g' Hg. destruct q; try discriminate Hq; by injection Hg.
Qed.

Lemma steps_api_read_endpoint name ps item wrap :
  steps api_call eq (read_endpoint name ps item wrap).
Proof.
  apply steps_try_except; [side.. | | intros; apply steps_ret; side].
  apply steps_bind; [side.. | apply steps_fallible; side |]. intros driver.
  apply steps_bind; [side.. | |].
  { apply steps_session_run; [side.. |]. by intros script g g' [= <-]. }
  intros result. apply steps_bind; [side.. | apply steps_lift; side |].
  intros items. apply steps_bind; [side.. | apply steps_infallible; side |].
  intros _. apply steps_ret; side.
Qed.

Lemma steps_api_health_check : steps api_call eq health_check.
Proof.
  apply steps_try_except; [side.. | | intros; apply steps_ret; side].
  apply steps_bind; [side.. | apply steps_fallible; side |]. intros driver.
  apply steps_bind; [side.. | |].
  { apply steps_session_run; [side.. |]. by intros script g g' [= <-]. }
  intros result. apply steps_bind; [side.. | apply steps_lift; side |].
  intros _. apply steps_bind; [side.. | apply steps_infallible; side |].
  intros _. apply steps_ret; side.
Qed.

Lemma steps_api_graph_stats : steps api_call eq graph_stats.
Proof.
  apply steps_try_except; [side.. | | intros; apply steps_ret; side].
  apply steps_bind; [side.. | apply steps_fallible; side |]. intros driver.
  do 5 (apply steps_bind; [side.. | by apply steps_count_query |]; intros ?).
  apply steps_bind; [side.. | apply steps_infallible; side |]. intros _.
  apply steps_bind; [side.. | apply steps_lift; side |]. intros total.
  apply steps_ret; side.
Qed.

Lemma try_except_returns {A} (body : M A) (handler : Exn → M A) w r w' :
  (∀ e w1, ∃ a w2, handler e w1 = (Ok a, w2)) →
  try_except body handler w = (r, w') → ∃ a, r = Ok a.
Proof.
  intros Hh. unfold try_except. destruct (body w) as [[a|e] w1].
  - intros [= <- <-]. eauto.
  - destruct (Hh e w1) as (a & w2 & ->). intros [= <- <-]. eauto.
Qed.

(** X8. Whatever the store answers, every endpoint that talks to it ends in
    a response, a body or an HTTPException; its calls build or close a
    driver or run a probe, a count or a read query, and the graph is as
    before. *)
Theorem endpoints_answer_and_only_read (id : string) (limit : Z) :
  Forall (fun endpoint : M Response =>
            ∀ w r w', endpoint w = (r, w') →
              (∃ response, r = Ok response)
              ∧ w_graph w' = w_graph w
              ∧ Forall api_call (new_calls w w'))
         (store_endpoints id limit).
Proof.
  assert (Hgen : ∀ endpoint : M Response,
             steps api_call eq endpoint →
             (∀ w r w', endpoint w = (r, w') → ∃ response, r = Ok response) →
             ∀ w r w', endpoint w = (r, w') →
               (∃ response, r = Ok response)
               ∧ w_graph w' = w_graph w
               ∧ Forall api_call (new_calls w w')).
  { intros endpoint Hs Hr w r w' Hrun. split; [by eapply Hr|].
    destruct (Hs _ _ _ Hrun) as (evs & Ht & Hp & Hg & _). split; [done|].
    unfold new_calls, calls. rewrite Ht, drop_app_length. by apply Forall_fmap. }
  unfold store_endpoints, other_read_endpoints,
    collaborative_recommendations, similar_product_recommendations,
    category_recommendations, trending_recommendations, list_customers, list_products.
  repeat (apply Forall_cons; split); try (by apply Forall_nil); apply Hgen;
    first [apply steps_api_health_check | apply steps_api_graph_stats
          | apply steps_api_read_endpoint
          | intros w r w'; apply try_except_returns; intros e w1; by eexists _, _ ].
Qed.

Lemma new_calls_log2 w c1 r1 c2 r2 :
  new_calls w (log c2 r2 (log c1 r1 w)) = [c1; c2].
Proof.
  unfold new_calls, calls. cbn [log w_trace]. rewrite <- app_assoc.
  by rewrite drop_app_length.
Qed.

Lemma new_calls_log3 w c1 r1 c2 r2 c3 r3 :
  new_calls w (log c3 r3 (log c2 r2 (log c1 r1 w))) = [c1; c2; c3].
Proof.
  unfold new_calls, calls. cbn [log w_trace]. rewrite <- !app_assoc.
  by rewrite drop_app_length.
Qed.

Lemma answered_two w :
  answered w 2 ↔ w_fault w (length (w_trace w)) = None
                 ∧ w_fault w (S (length (w_trace w))) = None.
Proof.
  split.
  - intros H. split.
    + rewrite <- (Nat.add_0_r (length _)). apply H. lia.
    + rewrite <- Nat.add_1_r. apply H. lia.
  - intros [H0 H1] j Hj. destruct j as [|[|j]]; [| |lia].
    + by rewrite Nat.add_0_r.
    + by rewrite Nat.add_1_r.
Qed.

Lemma fault_after_log w c r :
  w_fault (log c r w) (length (w_trace (log c r w))) = w_fault w (S (length (w_trace w))).
Proof. cbn [log w_trace w_fault]. rewrite length_app. cbn [length]. f_equal. lia. Qed.

Lemma health_check_up w :
  answered w 2 →
  health_check w
  = (Ok (Returned (JObj [("ok", JBool true)])),
     log (DriverClose (length (w_trace w))) None
       (log (Run (length (w_trace w)) Return1AsTest ∅) None (log DriverOpen None w))).
Proof.
  intros [H0 H1]%answered_two. unfold health_check, try_except.
  rewrite (bind_ok _ _ _ _ _ (driver_open_returns w H0)).
  rewrite (bind_ok _ _ _ _ _
             (session_run_returns _ Return1AsTest ∅ (log DriverOpen None w) (w_graph w)
                ltac:(by rewrite fault_after_log) eq_refl)).
  reflexivity.
Qed.

(** X9. [/health] answers [{"ok": true}] exactly when the construction of
    the driver and the probe statement are both answered; in every other
    case it still returns a body, which then is not [{"ok": true}]. *)
Theorem health_check_ok_iff w :
  ∃ body w',
    health_check w = (Ok (Returned body), w')
    ∧ (body = JObj [("ok", JBool true)] ↔ answered w 2).
Proof.
  destruct (w_fault w (length (w_trace w))) as [e|] eqn:E0.
  - destruct (health_check_down w e) as [w' Hw]; [by left|].
    eexists _, w'. split; [exact Hw|]. split; [done|].
    intros [H0 _]%answered_two. congruence.
  - destruct (w_fault w (S (length (w_trace w)))) as [e|] eqn:E1.
    + destruct (health_check_down w e) as [w' Hw]; [by right|].
      eexists _, w'. split; [exact Hw|]. split; [done|].
      intros [_ H1]%answered_two. congruence.
    + assert (Hup : answered w 2) by by apply answered_two.
      eexists _, _. split; [exact (health_check_up w Hup)|]. done.
Qed.

(** X10. When its six calls are answered, [/stats] reports the counts the
    graph holds at that moment, with the node total the sum of the four
    label counts; it sends the five count statements between building and
    closing one driver and leaves the graph as it was. *)
Theorem graph_stats_reports_counts w :
  answered w 6 →
  let g := w_graph w in
  let driver := length (w_trace w) in
  let n label := Cypher.count_nodes g label in
  ∃ w',
    graph_stats w
    = (Ok (Returned (JObj
         [("nodes", JObj [("customers", JVal (VInt (n "Customer")));
                          ("products", JVal (VInt (n "Product")));
                          ("orders", JVal (VInt (n "Order")));
                          ("categories", JVal (VInt (n "Category")));
                          ("total", JVal (VInt (n "Customer" + n "Product"
                                                + n "Order" + n "Category")))]);
          ("relationships", JObj [("total", JVal (VInt (Cypher.count_rels g)))])])),
       w')
    ∧ w_graph w' = g
    ∧ new_calls w w'
      = [ DriverOpen;
          Run driver (CountNodes "Customer") ∅; Run driver (CountNodes "Product") ∅;
          Run driver (CountNodes "Order") ∅; Run driver (CountNodes "Category") ∅;
          Run driver CountRels ∅; DriverClose driver ].
Proof.
  intros Hup g driver n.
  apply answered_next in Hup as [H0 Hup].
  unfold graph_stats, try_except.
  rewrite (bind_ok _ _ _ _ _ (driver_open_returns w H0)). fold driver.
  specialize (Hup DriverOpen).
  set (w1 := log DriverOpen None w) in *.
  apply answered_next in Hup as [H1 Hup].
  rewrite (bind_ok _ _ _ _ _ (count_query_returns driver (CountNodes "Customer") w1
                                 eq_refl H1)).
  specialize (Hup (Run driver (CountNodes "Customer") ∅)).
  set (w2 := log (Run driver (CountNodes "Customer") ∅) None w1) in *.
  apply answered_next in Hup as [H2 Hup].
  rewrite (bind_ok _ _ _ _ _ (count_query_returns driver (CountNodes "Product") w2
                                 eq_refl H2)).
  specialize (Hup (Run driver (CountNodes "Product") ∅)).
  set (w3 := log (Run driver (CountNodes "Product") ∅) None w2) in *.
  apply answered_next in Hup as [H3 Hup].
  rewrite (bind_ok _ _ _ _ _ (count_query_returns driver (CountNodes "Order") w3
                                 eq_refl H3)).
  specialize (Hup (Run driver (CountNodes "Order") ∅)).
  set (w4 := log (Run driver (CountNodes "Order") ∅) None w3) in *.
  apply answered_next in Hup as [H4 Hup].
  rewrite (bind_ok _ _ _ _ _ (count_query_returns driver (CountNodes "Category") w4
                                 eq_refl H4)).
  specialize (Hup (Run driver (CountNodes "Category") ∅)).
  set (w5 := log (Run driver (CountNodes "Category") ∅) None w4) in *.
  apply answered_next in Hup as [H5 _].
  rewrite (bind_ok _ _ _ _ _ (count_query_returns driver CountRels w5 eq_refl H5)).
  eexists. split; [reflexivity|]. split; [reflexivity|].
  unfold new_calls, calls. cbn [log w_trace w1 w2 w3 w4 w5].
  rewrite <- !app_assoc. by rewrite drop_app_length.
Qed.


Lemma opens_then_raises {A B} (step : nat → M A) (rest : nat → A → M B) q ps w e :
  (∀ driver w1 e, w_fault w1 (length (w_trace w1)) = Some e →
                  step driver w1 = (Raise e, log (Run driver (q driver) ps) (Some e) w1)) →
  w_fault w (length (w_trace w)) = None →
  w_fault w (S (length (w_trace w))) = Some e →
  (driver ← driver_open; x ← step driver; rest driver x) w
  = (Raise e, log (Run (length (w_trace w)) (q (length (w_trace w))) ps) (Some e)
                (log DriverOpen None w)).
Proof.
  intros Hstep H0 H1.
  rewrite (bind_ok _ _ _ _ _ (driver_open_returns w H0)).
  apply bind_raise. apply Hstep. by rewrite fault_after_log.
Qed.

(** X12. When the driver is built but its first statement raises, every
    endpoint answers without closing that driver: the construction and the
    failed statement are all the calls it makes. *)
Theorem endpoints_leave_driver_open (id : string) (limit : Z) w e :
  w_fault w (length (w_trace w)) = None →
  w_fault w (S (length (w_trace w))) = Some e →
  Forall (fun endpoint : M Response =>
            ∃ response w' q ps,
              endpoint w = (Ok response, w')
              ∧ new_calls w w' = [DriverOpen; Run (length (w_trace w)) q ps])
         (store_endpoints id limit).
Proof.
  intros H0 H1.
  assert (Hread : ∀ name ps item wrap,
             ∃ response w' q ps',
               read_endpoint name ps item wrap w = (Ok response, w')
               ∧ new_calls w w' = [DriverOpen; Run (length (w_trace w)) q ps']).
  { intros name ps item wrap. unfold read_endpoint.
    eexists _, _, (ReadQuery name), ps.
    rewrite (try_except_raise _ _ _ _ _
               (opens_then_raises
                  (fun driver => session_run driver (ReadQuery name) ps) _
                  (fun _ => ReadQuery name) ps w e
                  ltac:(intros; by apply session_run_raises) H0 H1)).
    split; [reflexivity|]. apply new_calls_log2. }
  unfold store_endpoints, other_read_endpoints,
    collaborative_recommendations, similar_product_recommendations,
    category_recommendations, trending_recommendations, list_customers, list_products.
  repeat (apply Forall_cons; split); try (by apply Forall_nil); try apply Hread.
  - unfold health_check. eexists _, _, Return1AsTest, ∅.
    rewrite (try_except_raise _ _ _ _ _
               (opens_then_raises
                  (fun driver => session_run driver Return1AsTest ∅) _
                  (fun _ => Return1AsTest) ∅ w e
                  ltac:(intros; by apply session_run_raises) H0 H1)).
    split; [reflexivity|]. apply new_calls_log2.
  - unfold graph_stats. eexists _, _, (CountNodes "Customer"), ∅.
    rewrite (try_except_raise _ _ _ _ _
               (opens_then_raises
                  (fun driver => count_query driver (CountNodes "Customer")) _
                  (fun _ => CountNodes "Customer") ∅ w e
                  ltac:(intros; unfold count_query; apply bind_raise;
                        by apply session_run_raises) H0 H1)).
    split; [reflexivity|]. apply new_calls_log2.
Qed.

End api.

(** ** The statements of the bootstrap script *)

Section script_statements.
Implicit Types (s : string) (c : ascii).











End script_statements.

(** ** The groups of [chunk] *)

Section chunk_groups.
Context {A : Type}.

(** X14. For a positive size no group of [chunk] is empty, and every group
    but the last holds exactly [size] rows. *)
Theorem chunk_groups_full (rows : list A) (s : Z) groups :
  0 < s → chunk rows s = Ok groups →
  ∀ (k : nat) g, groups !! k = Some g →
    g ≠ [] ∧ ((S k < length groups)%nat → Z.of_nat (length g) = s).
Proof.
  intros Hs. rewrite chunk_windows by done. intros [= <-] k g.
  rewrite length_map, length_seq, list_lookup_fmap.
  pose proof (ceil_div_spec (Z.of_nat (length rows)) s ltac:(lia) Hs) as Hc.
  destruct (seq 0 _ !! k) as [j|] eqn:Hj; [|done].
  apply lookup_seq in Hj as [-> Hk]. cbn. intros [= <-].
  split.
  - intros Hnil%(f_equal length). rewrite length_take, length_drop in Hnil.
    cbn in Hnil. nia.
  - intros Hlast. rewrite length_take, length_drop. nia.
Qed.

End chunk_groups.

(** ** A run whose extraction fails *)

Section failed_extraction.
Implicit Types (w : World) (evs : list Event).

Lemma no_failed_read_calls evs :
  Forall (fun ev => not_read_sql (ev_call ev)) evs → no_failed_read evs.
Proof.
  intros H. eapply Forall_impl; [exact H|].
  intros ev. cbn beta. destruct (ev_call ev); cbn; tauto.
Qed.

Lemma no_failed_read_probes evs : probes_only evs → no_failed_read evs.
Proof.
  intros H. eapply Forall_impl; [exact H|].
  intros ev. cbn beta. destruct (ev_call ev); cbn; tauto.
Qed.

Lemma no_failed_read_app evs1 evs2 :
  no_failed_read evs1 → no_failed_read evs2 → no_failed_read (evs1 ++ evs2).
Proof. apply Forall_app_2. Qed.

Lemma steps_run_cypher_file driver :
  steps not_read_sql any_graph (run_cypher_file driver).
Proof.
  apply steps_bind; [done..| by apply steps_fallible |]. intros content.
  apply steps_for_each; [done..|]. intros statement.
  destruct (Str.truthy statement); [|by apply steps_ret].
  by apply steps_run_cypher.
Qed.

Lemma steps_load_batches driver q prepare df :
  steps not_read_sql any_graph (load_batches driver q prepare df).
Proof.
  apply steps_bind; [done..| by apply steps_lift |]. intros batches.
  apply steps_for_each; [done..|]. intros batch.
  apply steps_bind; [done..| by apply steps_lift |]. intros records.
  by apply steps_run_cypher.
Qed.

Lemma steps_load_event driver record :
  steps not_read_sql any_graph (load_event driver record).
Proof.
  unfold load_event.
  do 5 (apply steps_bind; [done..| by apply steps_lift |]; intros ?).
  by apply steps_run_cypher.
Qed.

Lemma steps_any_count_query driver q :
  steps not_read_sql any_graph (count_query driver q).
Proof.
  apply steps_bind; [done..| by apply steps_session_run |]. intros result.
  by apply steps_lift.
Qed.

(** Everything [etl_body] does once the six tables are read. *)
Lemma steps_loads driver cats prods custs ords items events :
  steps not_read_sql any_graph
    (load_batches driver CreateCategories Ok cats ;;
     load_batches driver CreateProducts Ok prods ;;
     load_batches driver CreateCustomers customer_record custs ;;
     load_batches driver CreateOrders order_record ords ;;
     load_batches driver CreateOrderItems Ok items ;;
     (batches ← lift (chunk events default_chunk_size);
      for_each batches (fun batch => for_each batch (load_event driver))) ;;
     count_query driver (CountNodes "Customer") ;;
     count_query driver (CountNodes "Product") ;;
     count_query driver (CountNodes "Order") ;;
     count_query driver (CountNodes "Category") ;;
     count_query driver CountRels ;;
     mret tt).
Proof.
  do 5 (apply steps_bind; [done..| apply steps_load_batches |]; intros _).
  apply steps_bind; [done..| |]; intros.
  { apply steps_bind; [done..| by apply steps_lift |]. intros batches.
    apply steps_for_each; [done..|]. intros batch.
    apply steps_for_each; [done..|]. intros record. apply steps_load_event. }
  do 5 (apply steps_bind; [done..| apply steps_any_count_query |]; intros _).
  by apply steps_ret.
Qed.

(** One extraction inside a run that has deleted the graph: it either ends
    the body or hands the rows on. *)
Lemma read_step {B} (pg : nat) (table : string) (k : list Row → M B)
    w0 evs0 w (r : Res B) w' (goal : Prop) :
  (read_sql table pg ≫= k) w = (r, w') →
  w_trace w = w_trace w0 ++ evs0 → w_graph w = empty_graph →
  (∀ e, r = Raise e → w_trace w' = w_trace w0 ++ evs0 ++ [read_failed pg table e] →
        w_graph w' = empty_graph → goal) →
  (∀ w1, k (w_tables w table) w1 = (r, w') →
         w_trace w1 = w_trace w0 ++ evs0 ++ [ok_event (ReadSql pg table)] →
         w_graph w1 = empty_graph → w_tables w1 = w_tables w → goal) →
  goal.
Proof.
  intros Hrun Ht Hg Hfail Hnext.
  unfold mbind, M_bind, read_sql, fallible in Hrun.
  destruct (w_fault w (length (w_trace w))) as [e|].
  - injection Hrun as <- <-. apply (Hfail e); [done| |done].
    cbn [log w_trace]. by rewrite Ht, <- app_assoc.
  - apply (Hnext _ Hrun); [|done|done].
    cbn [log w_trace]. by rewrite Ht, <- app_assoc.
Qed.

Lemma etl_body_reads pg drv w r w' :
  etl_body pg drv w = (r, w') →
  ∃ evs, w_trace w' = w_trace w ++ evs
    ∧ (no_failed_read evs
       ∨ ∃ evs0 table e,
           no_failed_read evs0 ∧ evs = evs0 ++ [read_failed pg table e]
           ∧ r = Raise e ∧ w_graph w' = empty_graph).
Proof.
  unfold etl_body. unfold mbind at 1, M_bind at 1.
  destruct (run_cypher_file drv w) as [[[]|e] w1] eqn:E1;
    apply steps_run_cypher_file in E1 as (evs1 & Ht1 & Hp1%no_failed_read_calls & _);
    [|intros [= <- <-]; eauto].
  unfold mbind at 1, M_bind at 1.
  destruct (run_cypher drv DetachDeleteAll ∅ w1) as [[[]|e] w2] eqn:E2.
  2:{ apply (steps_run_cypher not_read_sql any_graph) in E2
        as (evs2 & Ht2 & Hp2%no_failed_read_calls & _); [|done..].
      intros [= <- <-]. exists (evs1 ++ evs2).
      split; [by rewrite Ht2, Ht1, app_assoc|]. left. by apply no_failed_read_app. }
  apply run_cypher_ok_inv in E2 as (g' & [= <-] & Ht2 & Hg2 & _).
  rewrite Ht1, <- app_assoc in Ht2.
  set (sent := evs1 ++ [ok_event (Run drv DetachDeleteAll ∅)]) in Ht2.
  assert (Hsent : no_failed_read sent)
    by (apply no_failed_read_app; [done|by apply Forall_singleton]).
  intros Hrun.
  assert (Hfail : ∀ evs0 table e, no_failed_read evs0 → r = Raise e →
            w_trace w' = w_trace w ++ evs0 ++ [read_failed pg table e] →
            w_graph w' = empty_graph →
            ∃ evs, w_trace w' = w_trace w ++ evs
              ∧ (no_failed_read evs
                 ∨ ∃ evs0 table e,
                     no_failed_read evs0 ∧ evs = evs0 ++ [read_failed pg table e]
                     ∧ r = Raise e ∧ w_graph w' = empty_graph)).
  { intros evs0 table e H0 Hr Ht Hg. eexists. split; [exact Ht|].
    right. by exists evs0, table, e. }
  assert (Hmore : ∀ evs0 table, no_failed_read evs0 →
            no_failed_read (evs0 ++ [ok_event (ReadSql pg table)])).
  { intros evs0 table H0. apply no_failed_read_app; [done|by apply Forall_singleton]. }
  assert (Hsent' : w_trace w2 = w_trace w ++ sent) by exact Ht2.
  eapply (read_step pg "categories" _ w sent); [exact Hrun|done|done| |].
  { intros e Hr Ht Hg. refine (Hfail _ _ e _ Hr Ht Hg). by repeat apply Hmore. }
  clear Hrun. intros w3 Hrun Ht3 Hg3 _.
  eapply (read_step pg "products" _ w); [exact Hrun|exact Ht3|done| |].
  { intros e Hr Ht Hg. refine (Hfail _ _ e _ Hr Ht Hg). by repeat apply Hmore. }
  clear Hrun. intros w4 Hrun Ht4 Hg4 _.
  eapply (read_step pg "customers" _ w); [exact Hrun|exact Ht4|done| |].
  { intros e Hr Ht Hg. refine (Hfail _ _ e _ Hr Ht Hg). by repeat apply Hmore. }
  clear Hrun. intros w5 Hrun Ht5 Hg5 _.
  eapply (read_step pg "orders" _ w); [exact Hrun|exact Ht5|done| |].
  { intros e Hr Ht Hg. refine (Hfail _ _ e _ Hr Ht Hg). by repeat apply Hmore. }
  clear Hrun. intros w6 Hrun Ht6 Hg6 _.
  eapply (read_step pg "order_items" _ w); [exact Hrun|exact Ht6|done| |].
  { intros e Hr Ht Hg. refine (Hfail _ _ e _ Hr Ht Hg). by repeat apply Hmore. }
  clear Hrun. intros w7 Hrun Ht7 Hg7 _.
  eapply (read_step pg "events" _ w); [exact Hrun|exact Ht7|done| |].
  { intros e Hr Ht Hg. refine (Hfail _ _ e _ Hr Ht Hg). by repeat apply Hmore. }
  clear Hrun. intros w8 Hrun Ht8 Hg8 _.
  cbn beta in Hrun.
  destruct (steps_loads drv _ _ _ _ _ _ w8 r w' Hrun)
    as (evs3 & Ht9 & Hp9%no_failed_read_calls & _).
  eexists. split; [rewrite Ht9, Ht8, <- app_assoc; reflexivity|]. left.
  apply no_failed_read_app; [|done]. by repeat apply Hmore.
Qed.

Lemma try_finally_releases_graph {A} (body : M A) pg drv w r w' :
  try_finally body (pg_close pg ;; driver_close drv) w = (r, w') →
  ∃ w1, body w = (r, w1)
        ∧ w_trace w' = w_trace w1 ++ [ok_event (PgClose pg); ok_event (DriverClose drv)]
        ∧ w_graph w' = w_graph w1.
Proof.
  unfold try_finally. destruct (body w) as [r1 w1].
  unfold mbind, M_bind, pg_close, driver_close, infallible.
  intros [= <- <-]. exists w1. split; [done|]. split; [|done].
  simpl. by rewrite <- app_assoc.
Qed.

Lemma etl_reads w r w' :
  etl w = (r, w') →
  ∃ evs, w_trace w' = w_trace w ++ evs
    ∧ (no_failed_read evs
       ∨ ∃ evs0 pg drv table e,
           no_failed_read evs0
           ∧ evs = evs0 ++ [read_failed pg table e; ok_event (PgClose pg);
                            ok_event (DriverClose drv)]
           ∧ r = Raise e ∧ w_graph w' = empty_graph).
Proof.
  unfold etl. unfold mbind at 1, M_bind at 1.
  destruct (wait_for_postgres 30 2 w) as [[[]|e] w1] eqn:E1;
    apply quiet_wait_for_postgres in E1 as (evs1 & (Ht1 & _) & Hp1%no_failed_read_probes);
    [|intros [= <- <-]; eauto].
  unfold mbind at 1, M_bind at 1.
  destruct (wait_for_neo4j 30 2 w1) as [[[]|e] w2] eqn:E2;
    apply quiet_wait_for_neo4j in E2 as (evs2 & (Ht2 & _) & Hp2%no_failed_read_probes).
  2:{ intros [= <- <-]. exists (evs1 ++ evs2).
      split; [by rewrite Ht2, Ht1, app_assoc|]. left. by apply no_failed_read_app. }
  unfold mbind at 1, M_bind at 1.
  destruct (pg_connect w2) as [[pg|e] w3] eqn:E3;
    apply (steps_fallible not_read_sql any_graph) in E3
      as (evs3 & Ht3 & Hp3%no_failed_read_calls & _); try done.
  2:{ intros [= <- <-]. exists (evs1 ++ evs2 ++ evs3).
      split; [by rewrite Ht3, Ht2, Ht1, <- !app_assoc|]. left.
      by repeat apply no_failed_read_app. }
  unfold mbind at 1, M_bind at 1.
  destruct (driver_open w3) as [[drv|e] w4] eqn:E4;
    apply (steps_fallible not_read_sql any_graph) in E4
      as (evs4 & Ht4 & Hp4%no_failed_read_calls & _); try done.
  2:{ intros [= <- <-]. exists (evs1 ++ evs2 ++ evs3 ++ evs4).
      split; [by rewrite Ht4, Ht3, Ht2, Ht1, <- !app_assoc|]. left.
      by repeat apply no_failed_read_app. }
  intros (w5 & Hbody & Ht6 & Hg6)%try_finally_releases_graph.
  apply etl_body_reads in Hbody as (evs5 & Ht5 & Hcase).
  assert (Hpre : no_failed_read (evs1 ++ evs2 ++ evs3 ++ evs4))
    by by repeat apply no_failed_read_app.
  assert (Hclose : no_failed_read [ok_event (PgClose pg); ok_event (DriverClose drv)])
    by by repeat constructor.
  eexists. split.
  { rewrite Ht6, Ht5, Ht4, Ht3, Ht2, Ht1, <- !app_assoc. reflexivity. }
  destruct Hcase as [Hok|(evs0 & table & e & H0 & -> & -> & Hg)].
  - left. rewrite !app_assoc. apply no_failed_read_app; [|done].
    rewrite <- !app_assoc. by repeat apply no_failed_read_app.
  - right. exists (evs1 ++ evs2 ++ evs3 ++ evs4 ++ evs0), pg, drv, table, e.
    split; [by repeat apply no_failed_read_app|].
    split; [by rewrite <- !app_assoc|]. split; [done|]. by rewrite Hg6.
Qed.

(** X15. The graph is deleted before the tables are read: when an
    extraction raises, the run raises the same exception and leaves the
    graph empty, whatever it held before; the failed extraction and the two
    releases are its last calls. *)
Theorem etl_failed_extraction_empties w r w' conn table e :
  etl w = (r, w') →
  read_failed conn table e ∈ drop (length (w_trace w)) (w_trace w') →
  r = Raise e
  ∧ w_graph w' = empty_graph
  ∧ ∃ evs drv,
      w_trace w' = w_trace w ++ evs ++ [ read_failed conn table e;
                                          ok_event (PgClose conn);
                                          ok_event (DriverClose drv) ].
Proof.
  intros (evs & Ht & Hcase)%etl_reads. rewrite Ht, drop_app_length.
  intros Hin.
  destruct Hcase as [Hok|(evs0 & pg & drv & table' & e' & H0 & -> & -> & Hg)].
  - unfold no_failed_read in Hok. rewrite Forall_forall in Hok.
    by specialize (Hok _ Hin).
  - apply elem_of_app in Hin as [Hin|Hin].
    + unfold no_failed_read in H0. rewrite Forall_forall in H0.
      by specialize (H0 _ Hin).
    + apply elem_of_cons in Hin as [[= -> -> ->]|Hin].
      * split; [done|]. split; [done|]. by exists evs0, drv.
      * apply elem_of_cons in Hin as [[=]|Hin].
        apply elem_of_cons in Hin as [[=]|Hin]. by apply elem_of_nil in Hin.
Qed.

End failed_extraction.

(** ** The graph a run loads *)

Section loaded_graph_shape.
Implicit Types (g : Graph) (r : Rel) (rows : list Row).

Lemma match_nodes_spec g label id (i : nat) :
  i ∈ Cypher.match_nodes g label id →
  ∃ n, nodes g !! i = Some n ∧ n_label n = label.
Proof.
  unfold Cypher.match_nodes. intros [_ Hm]%list_elem_of_In%filter_In.
  destruct (nodes g !! i) as [n|]; [|done]. exists n. split; [done|].
  cbn in Hm. unfold Cypher.node_matches in Hm.
  apply andb_prop in Hm as [Hl _]. by apply bool_decide_eq_true in Hl.
Qed.

Lemma in_schema g r src dst :
  nodes g !! r_src r = Some src → nodes g !! r_dst r = Some dst →
  (n_label src, r_type r, n_label dst) ∈ schema → rel_typed g r.
Proof. intros. by exists src, dst. Qed.

Lemma rel_typed_more_nodes g ns r :
  rel_typed g r → rel_typed (Cypher.add_nodes g ns) r.
Proof.
  intros (src & dst & Hs & Hd & Hin). exists src, dst.
  split; [by apply lookup_app_l_Some|]. split; [by apply lookup_app_l_Some|done].
Qed.

Lemma well_typed_add_nodes g ns : well_typed g → well_typed (Cypher.add_nodes g ns).
Proof.
  unfold well_typed. cbn [Cypher.add_nodes rels]. intros H.
  eapply Forall_impl; [exact H|]. intros r. apply rel_typed_more_nodes.
Qed.

Lemma well_typed_add_rels g rs :
  well_typed g → Forall (rel_typed g) rs → well_typed (Cypher.add_rels g rs).
Proof.
  unfold well_typed. cbn [Cypher.add_rels rels]. intros H1 H2.
  apply Forall_app_2; done.
Qed.

Lemma well_typed_create_linked g rows mk target fk link (L : string) :
  (∀ row, n_label (mk row) = L) →
  (∀ g1 x y nx ny, nodes g1 !! x = Some nx → n_label nx = L →
                   nodes g1 !! y = Some ny → n_label ny = target →
                   rel_typed g1 (link x y)) →
  well_typed g → well_typed (Cypher.create_linked g rows mk target fk link).
Proof.
  intros Hmk Hlink Hg. unfold Cypher.create_linked.
  apply well_typed_add_rels; [by apply well_typed_add_nodes|].
  apply Forall_forall. intros r Hr.
  apply list_elem_of_In, in_concat in Hr as (rs & Hrs & Hr).
  apply list_elem_of_In, elem_of_lookup_imap in Hrs as (k & row & -> & Hk).
  apply list_elem_of_In, list_elem_of_fmap in Hr as (c & -> & Hc).
  apply match_nodes_spec in Hc as (nc & Hnc & Hlc).
  apply (Hlink _ _ _ (mk row) nc); [|done|done|done].
  cbn [Cypher.add_nodes nodes].
  rewrite lookup_app_r by lia.
  replace (length (nodes g) + k - length (nodes g))%nat with k by lia.
  by rewrite list_lookup_fmap, Hk.
Qed.

Lemma batch_param_ok_inv ps rows :
  Cypher.batch_param ps = Ok rows → ps !! "batch" = Some (PList rows).
Proof.
  unfold Cypher.batch_param. destruct (ps !! "batch") as [[v|rs]|]; [done| |done].
  by intros [= ->].
Qed.

(** What a load statement that returned has done to the nodes. *)
Lemma exec_nodes script q ps g g' :
  is_load_stmt q → Cypher.exec script q ps g = Ok g' →
  nodes g' = nodes g ++ new_nodes q ps.
Proof.
  intros Hq. destruct q; try done; cbn [Cypher.exec].
  1-4: intros (rows & Hb%batch_param_ok_inv & [= <-])%res_bind_ok_inv;
       unfold new_nodes; by rewrite Hb.
  - intros (rows & _ & [= <-])%res_bind_ok_inv. cbn. by rewrite app_nil_r.
  - intros (cid & _ & H)%res_bind_ok_inv.
    apply res_bind_ok_inv in H as (pid & _ & H).
    apply res_bind_ok_inv in H as (eid & _ & H).
    apply res_bind_ok_inv in H as (ts & _ & [= <-]).
    cbn. by rewrite app_nil_r.
Qed.

(** A load statement keeps every relationship between nodes of the labels
    its type asks for. *)
Lemma exec_well_typed script q ps g g' :
  is_load_stmt q → Cypher.exec script q ps g = Ok g' → well_typed g → well_typed g'.
Proof.
  intros Hq. destruct q; try done; cbn [Cypher.exec].
  - intros (rows & _ & [= <-])%res_bind_ok_inv. apply well_typed_add_nodes.
  - intros (rows & _ & [= <-])%res_bind_ok_inv.
    apply (well_typed_create_linked _ _ _ _ _ _ "Product"); [done|].
    intros g1 x y nx ny Hx Hlx Hy Hly. apply (in_schema _ _ nx ny); [done..|].
    cbn. rewrite Hlx, Hly. set_solver.
  - intros (rows & _ & [= <-])%res_bind_ok_inv. apply well_typed_add_nodes.
  - intros (rows & _ & [= <-])%res_bind_ok_inv.
    apply (well_typed_create_linked _ _ _ _ _ _ "Order"); [done|].
    intros g1 x y nx ny Hx Hlx Hy Hly. apply (in_schema _ _ ny nx); [done..|].
    cbn. rewrite Hlx, Hly. set_solver.
  - intros (rows & _ & [= <-])%res_bind_ok_inv Hg.
    apply well_typed_add_rels; [done|].
    apply Forall_forall. intros r Hr.
    apply list_elem_of_In, in_concat in Hr as (rs & Hrs & Hr).
    apply list_elem_of_In, list_elem_of_fmap in Hrs as (row & -> & _).
    apply list_elem_of_In in Hr. unfold Cypher.contains_rels in Hr.
    apply list_elem_of_bind in Hr as (o & Hr & Ho).
    apply list_elem_of_bind in Hr as (p & Hr & Hp).
    apply list_elem_of_singleton in Hr as ->.
    apply match_nodes_spec in Ho as (no & Hno & Hlo).
    apply match_nodes_spec in Hp as (np & Hnp & Hlp).
    apply (in_schema _ _ no np); [done..|]. cbn. rewrite Hlo, Hlp. set_solver.
  - intros (cid & _ & H)%res_bind_ok_inv.
    apply res_bind_ok_inv in H as (pid & _ & H).
    apply res_bind_ok_inv in H as (eid & _ & H).
    apply res_bind_ok_inv in H as (ts & _ & [= <-]). intros Hg.
    apply well_typed_add_rels; [done|].
    apply Forall_forall. intros r Hr. unfold Cypher.event_rels in Hr.
    apply list_elem_of_bind in Hr as (c & Hr & Hc).
    apply list_elem_of_bind in Hr as (p & Hr & Hp).
    apply list_elem_of_singleton in Hr as ->.
    apply match_nodes_spec in Hc as (nc & Hnc & Hlc).
    apply match_nodes_spec in Hp as (np & Hnp & Hlp).
    apply (in_schema _ _ nc np); [done..|]. cbn [r_type]. rewrite Hlc, Hlp.
    cbn in Hq. rewrite !elem_of_cons, elem_of_nil in Hq.
    destruct Hq as [->|[->|[->|[->|[]]]]]; apply list_elem_of_In; cbn; auto 10.
Qed.

Lemma exec_stmts_shape script (qs : list (Stmt * Params)) g g' :
  Forall (fun qp => is_load_stmt qp.1) qs →
  exec_stmts script qs g = Ok g' →
  nodes g' = nodes g ++ concat (map (fun qp => new_nodes qp.1 qp.2) qs)
  ∧ (well_typed g → well_typed g').
Proof.
  unfold exec_stmts. intros Hqs. revert g.
  induction Hqs as [|[q ps] qs Hq _ IH]; intros g; cbn [fold_res map concat fst snd].
  - intros [= <-]. by rewrite app_nil_r.
  - intros (g1 & H1 & Hrest)%res_bind_ok_inv.
    destruct (IH _ Hrest) as [Hn Hw]. split.
    + rewrite Hn, (exec_nodes _ _ _ _ _ Hq H1). by rewrite <- app_assoc.
    + intros Hg. by apply Hw, (exec_well_typed _ _ _ _ _ Hq H1).
Qed.

Lemma batch_stmts_load q batches :
  is_load_stmt q → Forall (fun qp : Stmt * Params => is_load_stmt qp.1) (batch_stmts q batches).
Proof. intros Hq. unfold batch_stmts. apply Forall_fmap, Forall_forall. by intros. Qed.

Lemma event_stmts_load (rows : list Row) events :
  mapM event_stmt rows = Ok events →
  Forall (fun qp : Stmt * Params => is_load_stmt qp.1 ∧ new_nodes qp.1 qp.2 = []) events.
Proof.
  revert events. induction rows as [|row rows IH]; intros events.
  - intros [= <-]. constructor.
  - intros (qp & qps & Hqp & Hqps & ->)%mapM_cons_ok_inv.
    apply Forall_cons. split; [|by apply IH].
    unfold event_stmt in Hqp.
    apply res_bind_ok_inv in Hqp as (et & _ & H).
    apply res_bind_ok_inv in H as (ts & _ & H).
    apply res_bind_ok_inv in H as (cid & _ & H).
    apply res_bind_ok_inv in H as (pid & _ & H).
    apply res_bind_ok_inv in H as (eid & _ & [= <-]).
    split; [|done]. cbn. rewrite rel_type_lookup_cases.
    repeat case_decide; set_solver.
Qed.

Lemma new_nodes_batches q mk (batches : list (list Row)) :
  (∀ rows, new_nodes q {[ "batch" := PList rows ]} = map mk rows) →
  concat (map (fun qp : Stmt * Params => new_nodes qp.1 qp.2) (batch_stmts q batches))
  = map mk (concat batches).
Proof.
  intros Hq. unfold batch_stmts. rewrite map_map. cbn [fst snd].
  induction batches as [|b bs IH]; [done|].
  cbn [map concat]. by rewrite IH, Hq, map_app.
Qed.

Lemma no_new_nodes (qs : list (Stmt * Params)) :
  Forall (fun qp => new_nodes qp.1 qp.2 = []) qs →
  concat (map (fun qp : Stmt * Params => new_nodes qp.1 qp.2) qs) = [].
Proof.
  induction 1 as [|qp qs Hqp _ IH]; [done|]. cbn [map concat]. by rewrite Hqp, IH.
Qed.

Lemma prepared_batches_rows prepare (df : list Row) batches :
  prepared_batches prepare df = Ok batches → length (concat batches) = length df.
Proof.
  unfold prepared_batches.
  intros (chunks & Hchunk & Hprep)%res_bind_ok_inv.
  apply mapM_ok_concat, mapM_ok_length in Hprep.
  by rewrite Hprep, (chunk_default_concat _ _ Hchunk).
Qed.

Lemma count_label mk (L label : string) rows :
  (∀ row, n_label (mk row) = L) →
  length (List.filter (fun n => bool_decide (n_label n = label)) (map mk rows))
  = if decide (L = label) then length rows else 0%nat.
Proof.
  intros Hmk. induction rows as [|row rows IH]; [by destruct (decide _)|].
  cbn [map List.filter]. rewrite Hmk.
  destruct (decide (L = label)) as [->|Hne].
  - rewrite bool_decide_true by done. cbn [length]. by rewrite IH.
  - rewrite bool_decide_false by done. exact IH.
Qed.

(** The nodes and relationships of the graph that load statements build
    from nothing. *)
Lemma loaded_shape script tables stmts g :
  load_stmts tables = Ok stmts → exec_stmts script stmts empty_graph = Ok g →
  ∃ cats prods custs ords : list Row,
    nodes g = map Cypher.category_node cats ++ map Cypher.product_node prods
              ++ map Cypher.customer_node custs ++ map Cypher.order_node ords
    ∧ length cats = length (tables "categories")
    ∧ length prods = length (tables "products")
    ∧ length custs = length (tables "customers")
    ∧ length ords = length (tables "orders")
    ∧ well_typed g.
Proof.
  intros (cats & prods & custs & ords & items & events
          & Hcats%prepared_batches_rows & Hprods%prepared_batches_rows
          & Hcusts%prepared_batches_rows & Hords%prepared_batches_rows
          & _ & Hev%event_stmts_load & ->)%load_stmts_inv Hexec.
  apply exec_stmts_shape in Hexec as [Hn Hw].
  2:{ repeat apply Forall_app_2; try (by apply batch_stmts_load).
      eapply Forall_impl; [exact Hev|]. by intros qp [? _]. }
  exists (concat cats), (concat prods), (concat custs), (concat ords).
  split; [|by repeat split; try done; apply Hw; constructor].
  rewrite Hn. cbn [empty_graph nodes app]. rewrite !map_app, !concat_app.
  rewrite (new_nodes_batches CreateCategories Cypher.category_node),
    (new_nodes_batches CreateProducts Cypher.product_node),
    (new_nodes_batches CreateCustomers Cypher.customer_node),
    (new_nodes_batches CreateOrders Cypher.order_node);
    try (intros rows; cbn [new_nodes]; by rewrite lookup_singleton_eq).
  rewrite !no_new_nodes, !app_nil_r; [done| |].
  - eapply Forall_impl; [exact Hev|]. by intros qp [_ ?].
  - unfold batch_stmts. apply Forall_fmap, Forall_forall. by intros.
Qed.

(** X16. A run that returns leaves one node per extracted row, under the
    label of its table, and no other node: rows with the same id are not
    merged, and whatever the bootstrap script or an earlier run created is
    gone. *)
Theorem etl_one_node_per_row w w' :
  etl w = (Ok tt, w') →
  let g := w_graph w' in
  let rows table := Z.of_nat (length (w_tables w table)) in
  Cypher.count_nodes g "Category" = rows "categories"
  ∧ Cypher.count_nodes g "Product" = rows "products"
  ∧ Cypher.count_nodes g "Customer" = rows "customers"
  ∧ Cypher.count_nodes g "Order" = rows "orders"
  ∧ Z.of_nat (length (nodes g))
    = rows "categories" + rows "products" + rows "customers" + rows "orders".
Proof.
  intros (probes & pg & drv & stmts & _ & Hst & Hg & _ & _)%etl_ok_inv g rows.
  destruct (loaded_shape _ _ _ _ Hst Hg)
    as (cats & prods & custs & ords & Hn & Hc & Hp & Hcu & Ho & _).
  unfold Cypher.count_nodes, rows. fold g in Hn. rewrite Hn.
  rewrite !List.filter_app, !length_app, !length_map.
  rewrite !(count_label Cypher.category_node "Category"),
    !(count_label Cypher.product_node "Product"),
    !(count_label Cypher.customer_node "Customer"),
    !(count_label Cypher.order_node "Order") by done.
  repeat (case_decide; try discriminate; try congruence). lia.
Qed.

(** X17. In the graph a run that returns leaves, every relationship joins
    two nodes of the graph whose labels are those its type asks for:
    IN_CATEGORY from a Product to a Category, PLACED from a Customer to an
    Order, CONTAINS from an Order to a Product, and the four event kinds
    from a Customer to a Product. *)
Theorem etl_relationships_typed w w' :
  etl w = (Ok tt, w') →
  let g := w_graph w' in
  Forall (fun r => ∃ src dst,
            nodes g !! r_src r = Some src ∧ nodes g !! r_dst r = Some dst
            ∧ (n_label src, r_type r, n_label dst) ∈ schema)
         (rels g).
Proof.
  intros (probes & pg & drv & stmts & _ & Hst & Hg & _ & _)%etl_ok_inv g.
  by destruct (loaded_shape _ _ _ _ Hst Hg) as (_ & _ & _ & _ & _ & _ & _ & _ & _ & Hw).
Qed.

End loaded_graph_shape.

(** ** The further properties at work *)

Lemma wait_without_attempts_witness :
  0 <= 0
  ∧ wait_for_postgres 0 2 Sample.world = (Ok tt, Sample.world)
  ∧ wait_for_neo4j 0 2 Sample.world = (Ok tt, Sample.world).
Proof. split; [lia|]. apply (wait_without_attempts 0 2 Sample.world). lia. Defined.

Lemma wait_for_postgres_bounded_witness :
  let w := Scenario.refusing (OperationalError "connection refused") in
  ∃ r w' evs,
    wait_for_postgres 3 2 w = (r, w')
    ∧ after w evs (w_graph w) w'
    ∧ Forall (fun ev => pg_probe_call 2 (ev_call ev)) evs
    ∧ Z.of_nat (calls_of is_pg_connect evs) <= Z.max 0 3
    ∧ Z.of_nat (calls_of is_sleep evs) <= Z.max 0 (3 - 1).
Proof.
  intros w.
  assert (H : wait_for_postgres 3 2 w
              = ((wait_for_postgres 3 2 w).1, (wait_for_postgres 3 2 w).2))
    by (by destruct (wait_for_postgres 3 2 w)).
  destruct (wait_for_postgres_bounded 3 2 w _ _ H) as (evs & Ha & Hp & Hc & Hs).
  exists (wait_for_postgres 3 2 w).1, (wait_for_postgres 3 2 w).2, evs.
  split; [exact H|]. split; [exact Ha|]. split; [exact Hp|]. split; [exact Hc|exact Hs].
Defined.


Lemma wait_for_postgres_other_error_witness :
  let e := TypeError "connect() got an unexpected keyword argument" in
  let w := Sample.world_failing_at 0 e in
  w_fault w (length (w_trace w)) = Some e
  ∧ wait_for_postgres 30 2 w = (Raise e, log PgConnect (Some e) w).
Proof.
  intros e w.
  assert (H : w_fault w (length (w_trace w)) = Some e) by reflexivity.
  split; [exact H|].
  apply (wait_for_postgres_other_error 30 2 w e); [lia|exact H|].
  intros msg. discriminate.
Defined.




Lemma graph_stats_reports_counts_witness :
  answered Sample.world 6
  ∧ ∃ body w',
      graph_stats Sample.world = (Ok (Returned body), w')
      ∧ w_graph w' = w_graph Sample.world
      ∧ length (new_calls Sample.world w') = 7%nat.
Proof.
  assert (H : answered Sample.world 6) by (intros j _; reflexivity).
  split; [exact H|].
  destruct (graph_stats_reports_counts Sample.world H) as (w' & Hrun & Hg & Hc).
  eexists _, w'. split; [exact Hrun|]. split; [exact Hg|]. by rewrite Hc.
Defined.


Lemma endpoints_leave_driver_open_witness :
  let e := ServiceError "Connection reset" in
  let w := Sample.world_failing_at 1 e in
  w_fault w (length (w_trace w)) = None
  ∧ w_fault w (S (length (w_trace w))) = Some e
  ∧ Forall (fun endpoint : M Response =>
              ∃ response w' q ps,
                endpoint w = (Ok response, w')
                ∧ new_calls w w' = [DriverOpen; Run (length (w_trace w)) q ps])
           (store_endpoints "C1" 5).
Proof.
  intros e w.
  assert (H0 : w_fault w (length (w_trace w)) = None) by reflexivity.
  assert (H1 : w_fault w (S (length (w_trace w))) = Some e) by reflexivity.
  split; [exact H0|]. split; [exact H1|].
  exact (endpoints_leave_driver_open "C1" 5 w e H0 H1).
Defined.

Lemma chunk_groups_full_witness :
  chunk [10; 20; 30; 40; 50]%nat 2 = Ok [[10; 20]; [30; 40]; [50]]%nat
  ∧ [10; 20]%nat ≠ []
  ∧ ((1 < 3)%nat → Z.of_nat (length [10; 20]%nat) = 2).
Proof.
  assert (H : chunk [10; 20; 30; 40; 50]%nat 2 = Ok [[10; 20]; [30; 40]; [50]]%nat)
    by reflexivity.
  split; [exact H|].
  exact (chunk_groups_full [10; 20; 30; 40; 50]%nat 2 _ ltac:(lia) H 0%nat [10; 20]%nat
           eq_refl).
Defined.

Lemma etl_failed_extraction_empties_witness :
  let e := ServiceError "relation customers does not exist" in
  let w := Sample.world_failing_at 12 e in
  ∃ r w' evs drv,
    etl w = (r, w')
    ∧ r = Raise e
    ∧ w_graph w' = empty_graph
    ∧ w_trace w' = w_trace w ++ evs ++ [ read_failed 5 "customers" e;
                                          ok_event (PgClose 5);
                                          ok_event (DriverClose drv) ].
Proof.
  intros e w.
  assert (H : etl w = ((etl w).1, (etl w).2)) by (by destruct (etl w)).
  assert (Hin : read_failed 5 "customers" e
                ∈ drop (length (w_trace w)) (w_trace (etl w).2)).
  { apply (list_elem_of_lookup_2 _ 12%nat). vm_compute. reflexivity. }
  destruct (etl_failed_extraction_empties w _ _ 5%nat "customers" e H Hin)
    as (Hr & Hg & evs & drv & Ht).
  exists (etl w).1, (etl w).2, evs, drv.
  split; [exact H|]. split; [exact Hr|]. split; [exact Hg|exact Ht].
Defined.

Lemma etl_one_node_per_row_witness :
  ∃ w', etl Sample.world = (Ok tt, w')
    ∧ Cypher.count_nodes (w_graph w') "Product"
      = Z.of_nat (length (w_tables Sample.world "products"))
    ∧ Z.of_nat (length (nodes (w_graph w')))
      = Z.of_nat (length (w_tables Sample.world "categories"))
        + Z.of_nat (length (w_tables Sample.world "products"))
        + Z.of_nat (length (w_tables Sample.world "customers"))
        + Z.of_nat (length (w_tables Sample.world "orders")).
Proof.
  assert (H : etl Sample.world = (Ok tt, (etl Sample.world).2))
    by (apply run_returned; vm_compute; reflexivity).
  exists (etl Sample.world).2. split; [exact H|].
  destruct (etl_one_node_per_row Sample.world _ H) as (_ & Hp & _ & _ & Hn).
  split; [exact Hp|exact Hn].
Defined.

Lemma etl_relationships_typed_witness :
  ∃ w', etl Sample.world = (Ok tt, w')
    ∧ Forall (fun r => ∃ src dst,
                nodes (w_graph w') !! r_src r = Some src
                ∧ nodes (w_graph w') !! r_dst r = Some dst
                ∧ (n_label src, r_type r, n_label dst) ∈ schema)
             (rels (w_graph w')).
Proof.
  assert (H : etl Sample.world = (Ok tt, (etl Sample.world).2))
    by (apply run_returned; vm_compute; reflexivity).
  exists (etl Sample.world).2. split; [exact H|].
  exact (etl_relationships_typed Sample.world _ H).
Defined.
